(** * Dependency composition of the fastify template, checked against its code

    The application wires its components with the awilix container:
    [src/infrastructure/diCommon.ts] builds resolvers and registers them,
    [src/infrastructure/coreDiConfig.ts] and [src/modules/users/usersDiConfig.ts]
    list the registrations, [src/app.ts] assembles the container and mounts
    the tagged controllers, and [src/infrastructure/errors/errorHandler.ts]
    turns errors into HTTP responses.

    The repository code is embedded function by function.  The calls it
    makes into the awilix packages ([asClass], [asFunction],
    [container.register], [container.resolve], [container.dispose] and
    awilix-manager's [getWithTags]) are embedded in [Module Awilix] after the
    behaviour of those packages for a root container in PROXY injection mode
    without strict mode, which is how [startApp] creates it. *)

From stdpp Require Import base option list strings.
From Stdlib Require Import ZArith Lia.

(** ** JavaScript objects keyed by strings

    An object (and a [Map]) enumerates its string keys in insertion order, and
    an assignment to an existing key keeps the key's position.  Property names
    here are dependency names; keys that look like array indices, which
    JavaScript enumerates first, are outside the model. *)
Module Js.

Abbreviation Obj V := (list (string * V)).

Fixpoint get {V : Type} (o : Obj V) (k : string) : option V :=
  match o with
  | [] => None
  | (k', v) :: o' => if decide (k' = k) then Some v else get o' k
  end.

Fixpoint put {V : Type} (o : Obj V) (k : string) (v : V) : Obj V :=
  match o with
  | [] => [(k, v)]
  | (k', v') :: o' =>
      if decide (k' = k) then (k', v) :: o' else (k', v') :: put o' k v
  end.

Definition keys {V : Type} (o : Obj V) : list string := o.*1.

Definition entries {V : Type} (o : Obj V) : list (string * V) := o.

Definition values {V : Type} (o : Obj V) : list V := o.*2.

End Js.

(** ** Resolvers and their options *)

Inductive Lifetime := TRANSIENT | SCOPED | SINGLETON.

(** A produced value is known by its identity only. *)
Definition Value := nat.

(** What the body of a constructor or factory does once it has read its
    dependencies off the cradle: [new] an object, hand back a value that
    already exists, or throw. *)
Inductive Outcome :=
| Construct
| Return (v : Value)
| Throw.

(** The body of a class or of a factory: the cradle properties it
    dereferences while it runs, in order, and what it ends with.  In PROXY
    mode each property read is a [container.resolve]. *)
Record Producer := {
  uses : list string;
  outcome : Outcome
}.

(** [dispose?: (value: T) => any | Promise<any>]: [true] when the call
    fails. *)
Definition Disposer := Value -> bool.

(** The options of a resolver: awilix's [lifetime] and [dispose], and the
    [tags] and [enabled] that awilix-manager adds to them.  No resolver of
    the application carries another option ([injectionMode], [injector],
    or awilix-manager's [asyncInit], [asyncDispose] and [eagerInject]). *)
Record BuildResolverOptions := {
  opt_lifetime : option Lifetime;
  opt_tags : option (list string);
  opt_dispose : option Disposer;
  opt_enabled : option bool
}.

(** A class ([Constructor<T>]) or a factory ([FunctionReturning<T>]) as a
    value: its body, and the options it declares on itself under awilix's
    [RESOLVER] symbol, if it has that property. *)
Record Constructor := {
  produce : Producer;
  RESOLVER : option BuildResolverOptions
}.

Definition FunctionReturning := Constructor.

(** A class or factory written without a [RESOLVER] property, as all of the
    repository are. *)
Definition plain (p : Producer) : Constructor :=
  {| produce := p; RESOLVER := None |}.

Coercion plain : Producer >-> Constructor.

(** A resolver object as it lies in memory.  Every property may be absent:
    [registerDependencies] casts whatever the caller hands over. *)
Record Resolver := {
  resolve : option Producer;
  lifetime : option Lifetime;
  tags : option (list string);
  dispose : option Disposer;
  enabled : option bool
}.

(** The object [{}]. *)
Definition empty_object : Resolver :=
  {| resolve := None; lifetime := None; tags := None; dispose := None;
     enabled := None |}.

(** [{ ...opts }] for an [opts] that may be [undefined]. *)
Definition spread (opts : option BuildResolverOptions) : BuildResolverOptions :=
  default {| opt_lifetime := None; opt_tags := None; opt_dispose := None;
             opt_enabled := None |} opts.

(** src/infrastructure/AbstractController.ts *)
Definition CONTROLLER_TAG : string := "controller".

(** ** The awilix container *)

Inductive Error :=
| AwilixResolutionError (name : string) (resolutionStack : list string)
    (cyclic : bool)
| TypeError (name : string)
| Thrown (name : string).

Inductive Result (A : Type) :=
| Ok (a : A)
| Err (e : Error).

Arguments Ok {A} a.
Arguments Err {A} e.

(** An entry of [container.cache]: the resolver object that produced the
    value, by address, and the value. *)
Record CacheEntry := {
  entry_resolver : nat;
  entry_value : Value
}.

(** The memory the application works on: the resolver objects (addressed by
    their index), the container's [registrations] object and [cache] map, the
    objects constructed so far (each with the values it read off the cradle),
    and two logs of calls: producers entered and disposers invoked. *)
Record State := {
  objects : list Resolver;
  registrations : Js.Obj nat;
  cache : Js.Obj CacheEntry;
  instances : list (list Value);
  calls : list string;
  disposed : list (string * Value)
}.

Definition set_objects (f : list Resolver -> list Resolver) (s : State) : State :=
  {| objects := f (objects s); registrations := registrations s;
     cache := cache s; instances := instances s; calls := calls s;
     disposed := disposed s |}.

Definition set_registrations (f : Js.Obj nat -> Js.Obj nat) (s : State) : State :=
  {| objects := objects s; registrations := f (registrations s);
     cache := cache s; instances := instances s; calls := calls s;
     disposed := disposed s |}.

Definition set_cache (f : Js.Obj CacheEntry -> Js.Obj CacheEntry) (s : State) : State :=
  {| objects := objects s; registrations := registrations s;
     cache := f (cache s); instances := instances s; calls := calls s;
     disposed := disposed s |}.

Definition set_instances (f : list (list Value) -> list (list Value)) (s : State) : State :=
  {| objects := objects s; registrations := registrations s;
     cache := cache s; instances := f (instances s); calls := calls s;
     disposed := disposed s |}.

Definition set_calls (f : list string -> list string) (s : State) : State :=
  {| objects := objects s; registrations := registrations s;
     cache := cache s; instances := instances s; calls := f (calls s);
     disposed := disposed s |}.

Definition set_disposed (f : list (string * Value) -> list (string * Value)) (s : State) : State :=
  {| objects := objects s; registrations := registrations s;
     cache := cache s; instances := instances s; calls := calls s;
     disposed := f (disposed s) |}.

(** Nothing allocated, nothing registered. *)
Definition initial : State :=
  {| objects := []; registrations := []; cache := []; instances := [];
     calls := []; disposed := [] |}.

(** An object literal or a spread allocates a new object. *)
Definition alloc (o : Resolver) (s : State) : nat * State :=
  (length (objects s), set_objects (fun h => h ++ [o]) s).

(** Reading through a reference; [{ ...x }] of something that is no object
    has no properties. *)
Definition deref (s : State) (ref : nat) : Resolver :=
  default empty_object (objects s !! ref).

(** [x.p = v] style mutation of an allocated object. *)
Definition mutate (ref : nat) (o : Resolver) (s : State) : State :=
  set_objects (fun h => <[ref := o]> h) s.

Module Awilix.

(** [Object.assign(target, source)] on options: the properties that
    [source] has replace those of [target]; an [undefined] source adds
    nothing. *)
Definition assign (target : BuildResolverOptions)
    (source : option BuildResolverOptions) : BuildResolverOptions :=
  match source with
  | None => target
  | Some o =>
      {| opt_lifetime := from_option Some (opt_lifetime target) (opt_lifetime o);
         opt_tags := from_option Some (opt_tags target) (opt_tags o);
         opt_dispose := from_option Some (opt_dispose target) (opt_dispose o);
         opt_enabled := from_option Some (opt_enabled target) (opt_enabled o) |}
  end.

(** [makeOptions(defaults, opts, Type[RESOLVER])]:
    [Object.assign({}, defaults, opts, Type[RESOLVER])], so what the class or
    factory declares on itself comes last and wins. *)
Definition makeOptions (defaults : BuildResolverOptions)
    (opts inline : option BuildResolverOptions) : BuildResolverOptions :=
  assign (assign defaults opts) inline.

Definition defaults : BuildResolverOptions :=
  {| opt_lifetime := Some TRANSIENT; opt_tags := None; opt_dispose := None;
     opt_enabled := None |}.

(** [asClass(Type, opts)]: the resolver [{ ...opts, resolve }], with [opts]
    as [makeOptions] merged them, whose [resolve] news up [Type] with the
    cradle. *)
Definition asClass (Type_ : Constructor) (opts : option BuildResolverOptions) : Resolver :=
  let o := makeOptions defaults opts (RESOLVER Type_) in
  {| resolve := Some (produce Type_); lifetime := opt_lifetime o;
     tags := opt_tags o; dispose := opt_dispose o; enabled := opt_enabled o |}.

(** [asFunction(fn, opts)]: the same for a factory called with the cradle. *)
Definition asFunction (fn : FunctionReturning) (opts : option BuildResolverOptions) : Resolver :=
  let o := makeOptions defaults opts (RESOLVER fn) in
  {| resolve := Some (produce fn); lifetime := opt_lifetime o;
     tags := opt_tags o; dispose := opt_dispose o; enabled := opt_enabled o |}.

(** [createContainer({ injectionMode: "PROXY" })] *)
Definition createContainer (s : State) : State :=
  set_cache (fun _ => []) (set_registrations (fun _ => []) s).

(** [container.register(name, resolver)]: [registrations[name] = resolver]. *)
Definition register (name : string) (resolver : nat) (s : State) : State :=
  set_registrations (fun r => Js.put r name resolver) s.

(** Reading the listed cradle properties one after the other; the first
    failure ends the producer. *)
Fixpoint resolve_each (rec : string -> State -> option (Result Value * State))
    (names : list string) (s : State) : option (Result (list Value) * State) :=
  match names with
  | [] => Some (Ok [], s)
  | n :: ns =>
      match rec n s with
      | None => None
      | Some (Err e, s1) => Some (Err e, s1)
      | Some (Ok v, s1) =>
          match resolve_each rec ns s1 with
          | None => None
          | Some (Err e, s2) => Some (Err e, s2)
          | Some (Ok vs, s2) => Some (Ok (v :: vs), s2)
          end
      end
  end.

(** The end of a producer's body. *)
Definition finish (p : Producer) (name : string) (deps : list Value)
    (s : State) : Result Value * State :=
  match outcome p with
  | Construct =>
      (Ok (length (instances s)), set_instances (fun i => i ++ [deps]) s)
  | Return v => (Ok v, s)
  | Throw => (Err (Thrown name), s)
  end.

(** [resolver.resolve(container)]: the producer is entered and reads its
    cradle properties through [rec], the container's own [resolve]. *)
Definition run_producer (rec : string -> State -> option (Result Value * State))
    (name : string) (ref : nat) (s : State) : option (Result Value * State) :=
  match resolve (deref s ref) with
  | None => Some (Err (TypeError name), s)
  | Some p =>
      match resolve_each rec (uses p) (set_calls (fun c => c ++ [name]) s) with
      | None => None
      | Some (Err e, s1) => Some (Err e, s1)
      | Some (Ok deps, s1) => Some (finish p name deps s1)
      end
  end.

(** [container.resolve(name)] with the resolution stack passed along (awilix
    pushes before the producer runs, pops after it, and empties the stack
    when an error passes through).  On the root container SCOPED caches like
    SINGLETON.  The names the cradle answers by itself ([toJSON],
    [constructor], [inspect], [then] and the like) are not modelled.  [None]
    is only the recursion bound of this definition running out; [resolve]
    below never returns it. *)
Fixpoint resolve_fuel (fuel : nat) (resolutionStack : list string)
    (name : string) (s : State) : option (Result Value * State) :=
  match fuel with
  | 0 => None
  | S fuel' =>
      let resolver := Js.get (registrations s) name in
      if bool_decide (name ∈ resolutionStack)
      then Some (Err (AwilixResolutionError name resolutionStack true), s)
      else
        match resolver with
        | None => Some (Err (AwilixResolutionError name resolutionStack false), s)
        | Some ref =>
            let cradle := resolve_fuel fuel' (resolutionStack ++ [name]) in
            match default TRANSIENT (lifetime (deref s ref)) with
            | TRANSIENT => run_producer cradle name ref s
            | SCOPED | SINGLETON =>
                match Js.get (cache s) name with
                | Some cached => Some (Ok (entry_value cached), s)
                | None =>
                    match run_producer cradle name ref s with
                    | Some (Ok resolved, s1) =>
                        Some (Ok resolved,
                              set_cache (fun c => Js.put c name
                                {| entry_resolver := ref; entry_value := resolved |}) s1)
                    | other => other
                    end
                end
            end
        end
  end.

Definition resolve_bound (s : State) : nat := S (length (registrations s)).

Definition resolve (name : string) (s : State) : Result Value * State :=
  default (Err (TypeError name), s) (resolve_fuel (resolve_bound s) [] name s).

(** awilix-manager's [getWithTags(diContainer, tags)]: the registrations
    with [enabled !== false] whose [tags] contain every requested tag, each
    resolved in turn into [resolvedComponents]. *)
Definition has_tags (wanted : list string) (r : Resolver) : bool :=
  forallb (fun v => match tags r with
                    | Some ts => bool_decide (v ∈ ts)
                    | None => false
                    end) wanted.

(** [entry[1].enabled !== false] *)
Definition not_disabled (r : Resolver) : bool :=
  match enabled r with
  | Some false => false
  | _ => true
  end.

Definition dependenciesWithTags (s : State) (wanted : list string) : list string :=
  Js.keys (filter (fun kr => not_disabled (deref s kr.2) && has_tags wanted (deref s kr.2) = true)
             (Js.entries (registrations s))).

Fixpoint resolve_into (names : list string) (resolvedComponents : Js.Obj Value)
    (s : State) : Result (Js.Obj Value) * State :=
  match names with
  | [] => (Ok resolvedComponents, s)
  | key :: rest =>
      match resolve key s with
      | (Ok v, s1) => resolve_into rest (Js.put resolvedComponents key v) s1
      | (Err e, s1) => (Err e, s1)
      end
  end.

Definition getWithTags (wanted : list string) (s : State) : Result (Js.Obj Value) * State :=
  resolve_into (dependenciesWithTags s wanted) [] s.

(** [container.dispose()]: the cache entries are taken in the order of the
    map, the cache is cleared, and the [dispose] of every entry whose
    resolver has one is called with the cached value; the promise returned is
    a [Promise.all] over those calls, which rejects with one failure (here:
    the first in call order) and otherwise fulfils. *)
Definition dispose_entry (s : State) (ne : string * CacheEntry) : option (string * Value * bool) :=
  match dispose (deref s (entry_resolver ne.2)) with
  | Some d => Some (ne.1, entry_value ne.2, d (entry_value ne.2))
  | None => None
  end.

Definition dispose_calls (s : State) : list (string * Value * bool) :=
  omap (dispose_entry s) (Js.entries (cache s)).

Definition dispose (s : State) : option string * State :=
  let done := dispose_calls s in
  (head (filter (fun c => c.2 = true) done).*1.*1,
   set_disposed (fun d => d ++ done.*1) (set_cache (fun _ => []) s)).

End Awilix.

(** ** src/infrastructure/diCommon.ts *)

(** [{ ...opts, lifetime: "SINGLETON" }] *)
Definition singleton_options (opts : option BuildResolverOptions) : BuildResolverOptions :=
  {| opt_lifetime := Some SINGLETON;
     opt_tags := opt_tags (spread opts);
     opt_dispose := opt_dispose (spread opts);
     opt_enabled := opt_enabled (spread opts) |}.

(** [{ ...opts, tags: [CONTROLLER_TAG], lifetime: "SINGLETON" }] *)
Definition controller_options (opts : option BuildResolverOptions) : BuildResolverOptions :=
  {| opt_lifetime := Some SINGLETON;
     opt_tags := Some [CONTROLLER_TAG];
     opt_dispose := opt_dispose (spread opts);
     opt_enabled := opt_enabled (spread opts) |}.

Definition asSingletonClass (Type_ : Constructor)
    (opts : option BuildResolverOptions) : Resolver :=
  Awilix.asClass Type_ (Some (singleton_options opts)).

Definition asControllerClass (Type_ : Constructor)
    (opts : option BuildResolverOptions) : Resolver :=
  Awilix.asClass Type_ (Some (controller_options opts)).

Definition asSingletonFunction (fn : FunctionReturning)
    (opts : option BuildResolverOptions) : Resolver :=
  Awilix.asFunction fn (Some (singleton_options opts)).

(** One turn of the loop of [registerDependencies]: the spread makes a new
    object, which is what gets registered. *)
Definition registerDependency (s : State) (entry : string * nat) : State :=
  let '(dependencyKey, _dependencyValue) := entry in
  let '(dependencyValue, s1) := alloc (deref s _dependencyValue) s in
  Awilix.register dependencyKey dependencyValue s1.

(** [resolvers] holds, per key, the address of the caller's resolver. *)
Definition registerDependencies (resolvers : Js.Obj nat) (s : State) : State :=
  foldl registerDependency s (Js.entries resolvers).

(** An object literal whose property values are freshly built resolvers:
    each is allocated, and the literal holds their addresses. *)
Fixpoint literal (props : Js.Obj Resolver) (s : State) : Js.Obj nat * State :=
  match props with
  | [] => ([], s)
  | (k, o) :: rest =>
      let '(ref, s1) := alloc o s in
      let '(refs, s2) := literal rest s1 in
      ((k, ref) :: refs, s2)
  end.

(** ** src/infrastructure/config.ts and src/infrastructure/coreDiConfig.ts *)

(** What [startApp] finds around it: the [awilixManager] that the
    @fastify/awilix plugin decorated the app with, and whether [process.env]
    passes [CONFIG_SCHEMA]. *)
Record FastifyInstance := {
  awilixManager : Value;
  env_valid : bool
}.

(** [parseEnv(process.env, CONFIG_SCHEMA)] builds the config or throws. *)
Definition generateConfig (app : FastifyInstance) : Outcome :=
  if env_valid app then Construct else Throw.

Definition resolveCoreDependencies (app : FastifyInstance) : Js.Obj Resolver :=
  [ ("tsRestServer",
      asSingletonFunction {| uses := []; outcome := Construct |} None);
    ("awilixManager",
      asSingletonFunction {| uses := []; outcome := Return (awilixManager app) |} None);
    ("config",
      asSingletonFunction {| uses := []; outcome := generateConfig app |} None);
    ("database",
      asSingletonFunction {| uses := ["config"]; outcome := Construct |} None) ].

(** ** src/modules/users *)

(** The names of [UsersModuleDependencies] and of
    [UsersModulePublicDependencies = Pick<..., "usersService">]; they are
    types and exist at compile time only. *)
Definition UsersModuleDependencies : list string :=
  ["usersController"; "usersService"; "usersRepository"].

Definition UsersModulePublicDependencies : list string := ["usersService"].

(** src/modules/users/services/UsersService.ts: the constructor reads
    [dependencies.usersRepository]. *)
Definition UsersService : Producer :=
  {| uses := ["usersRepository"]; outcome := Construct |}.

Section UsersModule.

(** The two classes that [usersDiConfig.ts] imports besides [UsersService]. *)
Variables UsersController UsersRepository : Constructor.

(** src/modules/users/usersDiConfig.ts *)
Definition resolveUserDependencies : Js.Obj Resolver :=
  [ ("usersController", asControllerClass UsersController None);
    ("usersRepository", asSingletonClass UsersRepository None);
    ("usersService", asSingletonClass UsersService None) ].

(** src/modules/users/usersModulePlugin.ts *)
Definition usersModulePlugin (s : State) : State :=
  let '(userDependencies, s1) := literal resolveUserDependencies s in
  registerDependencies userDependencies s1.

(** ** src/app.ts *)

(** [startApp] up to the [app.after] call: the container is created, and
    the core resolvers and the users module are registered.  The
    @fastify/awilix plugin is registered with [asyncInit] and [eagerInject],
    which act on resolvers that carry those flags; none does. *)
Definition assemble (app : FastifyInstance) (s : State) : State :=
  let diContainer := Awilix.createContainer s in
  let '(coreResolvers, s1) := literal (resolveCoreDependencies app) diContainer in
  let s2 := registerDependencies coreResolvers s1 in
  usersModulePlugin s2.

(** How a call of [startApp] ends.  The controllers are collected inside the
    [app.after] callback, which fastify runs during its boot; what that
    callback throws does not reach the promise of [app.ready()], so the
    [try]/[catch] around [await app.ready()] never sees it: [startApp] then
    neither returns the app nor rejects, and the exception is left uncaught
    in the process. *)
Inductive Started :=
| Returned (allControllers : Js.Obj Value)
| Uncaught (e : Error).

(** [startApp]: the callback of [app.after] collects the controllers by tag
    and mounts the router of each. *)
Definition startApp (app : FastifyInstance) (s : State) : Started * State :=
  match Awilix.getWithTags [CONTROLLER_TAG] (assemble app s) with
  | (Ok allControllers, s') => (Returned allControllers, s')
  | (Err e, s') => (Uncaught e, s')
  end.

(** [app.close()]: with [disposeOnClose: true] the plugin's [onClose] hook
    disposes the container. *)
Definition close (s : State) : option string * State := Awilix.dispose s.

End UsersModule.

(** The constructors as the repository's documentation shows them:
    [UsersController] reads [usersService] and [tsRestServer],
    [UsersRepository] reads [database]. *)
Definition UsersController_doc : Producer :=
  {| uses := ["usersService"; "tsRestServer"]; outcome := Construct |}.

Definition UsersRepository_doc : Producer :=
  {| uses := ["database"]; outcome := Construct |}.

(** ** src/infrastructure/errors/errorHandler.ts *)

Section ErrorHandler.

(** [Record<string, unknown>], the [details] of an error. *)
Context {Details : Type}.

(** What the handler reads off an error once a type guard has narrowed it. *)
Record PublicNonRecoverableError := {
  message : string;
  errorCode : string;
  details : option Details;
  httpStatusCode : option Z
}.

Record InternalError := {
  internal_message : string;
  internal_errorCode : string;
  internal_details : option Details
}.

Record Payload := {
  payload_message : string;
  payload_errorCode : string;
  payload_details : option Details
}.

Record ResponseObject := {
  statusCode : Z;
  payload : Payload
}.

(** What goes to the request's logger: [msg], [code] and the stringified
    [details] of an internal error, or the [message] found for anything
    else, which is [undefined] when [JSON.stringify] gave that.  pino's
    serialisation of the error itself (the [error] property) is left out. *)
Inductive LogObject :=
| InternalLog (msg code : string) (details : option string)
| PlainLog (message : option string).

Record Http := {
  request_log : list LogObject;
  app_log : list string;
  reply_status : option Z;
  reply_sent : option Payload
}.

(** The thrown values: any JavaScript value can be thrown.  [typeof error]
    and [error === null], the [message] read off an object, and the two type
    guards of [PublicNonRecoverableError.ts] and [InternalError.ts]: a guard
    that holds gives the narrowed view of the error. *)
Context {JsError : Type}.
Variable typeof : JsError -> string.
Variable is_null : JsError -> bool.
Variable error_message : JsError -> string.
Variable isPublicNonRecoverableError : JsError -> option PublicNonRecoverableError.
Variable isInternalError : JsError -> option InternalError.

(** [JSON.stringify]: [None] when the call throws, as it does on a circular
    structure and on a BigInt.  Of [details], an object, it otherwise gives
    the text; of a thrown value that is no object, the text or [undefined]. *)
Variable JSON_stringify_details : Details -> option string.
Variable JSON_stringify : JsError -> option (option string).

Definition isObject (maybeObject : JsError) : bool :=
  bool_decide (typeof maybeObject = "object") && negb (is_null maybeObject).

(** [None]: building the log object threw. *)
Definition resolveLogObject (error : JsError) : option LogObject :=
  match isInternalError error with
  | Some e =>
      match internal_details e with
      | Some d =>
          match JSON_stringify_details d with
          | Some text =>
              Some (InternalLog (internal_message e) (internal_errorCode e) (Some text))
          | None => None
          end
      | None => Some (InternalLog (internal_message e) (internal_errorCode e) None)
      end
  | None =>
      if isObject error then Some (PlainLog (Some (error_message error)))
      else
        match JSON_stringify error with
        | Some text => Some (PlainLog text)
        | None => None
        end
  end.

Definition resolveResponseObject (error : JsError) : ResponseObject :=
  match isPublicNonRecoverableError error with
  | Some e =>
      {| statusCode := default 500%Z (httpStatusCode e);
         payload := {| payload_message := message e;
                       payload_errorCode := errorCode e;
                       payload_details := details e |} |}
  | None =>
      {| statusCode := 500%Z;
         payload := {| payload_message := "Internal server error";
                       payload_errorCode := "INTERNAL_SERVER_ERROR";
                       payload_details := None |} |}
  end.

(** The log object is built first: when that throws, the handler is left
    before it has logged or replied ([None]), and the exception goes back to
    fastify. *)
Definition errorHandler (error : JsError) (h : Http) : option Http :=
  match resolveLogObject error with
  | None => None
  | Some logObject =>
      let responseObject := resolveResponseObject error in
      Some {| request_log := request_log h ++ [logObject];
              app_log := match isInternalError error with
                         | Some e => app_log h ++ [internal_message e]
                         | None => app_log h
                         end;
              reply_status := Some (statusCode responseObject);
              reply_sent := Some (payload responseObject) |}
  end.

End ErrorHandler.

Arguments PublicNonRecoverableError : clear implicits.
Arguments InternalError : clear implicits.
Arguments Payload : clear implicits.
Arguments ResponseObject : clear implicits.
Arguments LogObject : clear implicits.
Arguments Http : clear implicits.


(** ** Vocabulary of the statements *)

(** What a run of the container may change between [s] and [s']: nothing is
    registered, overwritten or disposed, the cache, the constructed objects
    and the call log only grow at their ends, and the names on the
    resolution stack get neither a cache entry nor a producer call. *)
Definition grows (resolutionStack : list string) (s s' : State) : Prop :=
  objects s' = objects s ∧
  registrations s' = registrations s ∧
  disposed s' = disposed s ∧
  (∃ new, cache s' = cache s ++ new ∧
          ∀ k, k ∈ resolutionStack → k ∉ Js.keys new) ∧
  (∃ new, instances s' = instances s ++ new) ∧
  (∃ new, calls s' = calls s ++ new ∧
          ∀ k, k ∈ resolutionStack → k ∉ new).

(** How often the producer registered under [name] was entered. *)
Definition times_called (name : string) (s : State) : nat :=
  length (filter (λ n, n = name) (calls s)).


(** What the process may go on to do with the container once it runs:
    resolve names and collect by tags. *)
Inductive Use :=
| Resolve (name : string)
| GetWithTags (wanted : list string).

Definition use (s : State) (u : Use) : State :=
  match u with
  | Resolve name => (Awilix.resolve name s).2
  | GetWithTags wanted => (Awilix.getWithTags wanted s).2
  end.


(** What a class or function declares on itself under [RESOLVER]. *)
Definition inline_lifetime (T : Constructor) : option Lifetime :=
  RESOLVER T ≫= opt_lifetime.

Definition inline_tags (T : Constructor) : option (list string) :=
  RESOLVER T ≫= opt_tags.

Definition inline_dispose (T : Constructor) : option Disposer :=
  RESOLVER T ≫= opt_dispose.

(** The registration found under [name], read through its reference. *)
Definition registration (s : State) (name : string) : option Resolver :=
  deref s <$> Js.get (registrations s) name.

Definition tagged (tag : string) (r : Resolver) : Prop :=
  ∃ ts, tags r = Some ts ∧ tag ∈ ts.

(** [name] is registered with a lifetime that caches and its value is in the
    cache. *)
Definition held (name : string) (ref : nat) (e : CacheEntry) (s : State) : Prop :=
  Js.get (registrations s) name = Some ref ∧
  default TRANSIENT (lifetime (deref s ref)) ≠ TRANSIENT ∧
  Js.get (cache s) name = Some e.

(** A process whose environment passes the schema, and the container that
    [startApp] assembles in it from nothing. *)
Definition app_valid : FastifyInstance := {| awilixManager := 1000; env_valid := true |}.

Definition assembled : State :=
  assemble UsersController_doc UsersRepository_doc app_valid initial.

(** ** Inputs of the examples *)

(** The users module's resolvers, allocated in an empty memory. *)
Definition users_literal : Js.Obj nat * State :=
  literal (resolveUserDependencies UsersController_doc UsersRepository_doc) initial.

(** A second registration of a name that the users module has registered:
    a stand-in for [usersService]. *)
Definition stand_in : Js.Obj Resolver :=
  [ ("usersService", asSingletonFunction {| uses := []; outcome := Return 7 |} None) ].

Definition stand_in_literal : Js.Obj nat * State := literal stand_in assembled.

(** A second module, "orders", whose service reads [usersRepository], a name
    of the users module outside [UsersModulePublicDependencies]. *)
Definition OrdersService : Producer :=
  {| uses := ["usersRepository"]; outcome := Construct |}.

Definition resolveOrderDependencies : Js.Obj Resolver :=
  [ ("ordersService", asSingletonClass OrdersService None) ].

Definition orders_literal : Js.Obj nat * State := literal resolveOrderDependencies assembled.

(** Values for the handler: the error that [UsersService.getUser] throws,
    which the guard of [PublicNonRecoverableError] accepts; an error object
    that neither guard accepts; an internal error with [details]; and a
    BigInt, thrown as it is. *)
Inductive sample_error :=
| UserNotFound
| ConnectionRefused (detail : string)
| JobFailed (details : list string)
| ThrownBigInt.

Definition sample_typeof (e : sample_error) : string :=
  match e with
  | ThrownBigInt => "bigint"
  | _ => "object"
  end.

Definition sample_is_null (e : sample_error) : bool := false.

Definition sample_public (e : sample_error) : option (PublicNonRecoverableError (list string)) :=
  match e with
  | UserNotFound =>
      Some {| message := "User not found"; errorCode := "USER_NOT_FOUND";
              details := None; httpStatusCode := Some 404%Z |}
  | _ => None
  end.

Definition sample_message (e : sample_error) : string :=
  match e with
  | UserNotFound => "User not found"
  | ConnectionRefused detail => detail
  | JobFailed _ => "Job failed"
  | ThrownBigInt => ""
  end.

Definition sample_internal (e : sample_error) : option (InternalError (list string)) :=
  match e with
  | JobFailed details =>
      Some {| internal_message := "Job failed"; internal_errorCode := "JOB_FAILED";
              internal_details := Some details |}
  | _ => None
  end.

(** [details] given by the names of its properties; the property [self]
    refers back to the object, which [JSON.stringify] refuses. *)
Definition sample_stringify_details (details : list string) : option string :=
  if bool_decide ("self" ∈ details) then None
  else Some (String.concat "," details).

(** [JSON.stringify] of a BigInt throws. *)
Definition sample_stringify (e : sample_error) : option (option string) :=
  match e with
  | ThrownBigInt => None
  | _ => Some (Some "{}")
  end.

Definition fresh_exchange : Http (list string) :=
  {| request_log := []; app_log := []; reply_status := None; reply_sent := None |}.

(** A class that declares options on itself:
    [static [RESOLVER] = { lifetime: "TRANSIENT", tags: [] }]. *)
Definition SelfDescribed : Constructor :=
  {| produce := {| uses := []; outcome := Construct |};
     RESOLVER := Some {| opt_lifetime := Some TRANSIENT; opt_tags := Some [];
                         opt_dispose := None; opt_enabled := None |} |}.

Definition with_self_described : State :=
  let '(refs, s) :=
    literal [("selfDescribed", asSingletonClass SelfDescribed None)] assembled in
  registerDependencies refs s.

(** A controller registered switched off,
    [asControllerClass(ReportsController, { enabled: false })], next to the
    application's registrations. *)
Definition ReportsController : Producer :=
  {| uses := ["usersService"]; outcome := Construct |}.

Definition switched_off : BuildResolverOptions :=
  {| opt_lifetime := None; opt_tags := None; opt_dispose := None;
     opt_enabled := Some false |}.

Definition with_disabled_controller : State :=
  let '(refs, s) :=
    literal [("reportsController", asControllerClass ReportsController (Some switched_off))]
      assembled in
  registerDependencies refs s.

(** Two singletons with disposers, [Y] reading [X] while it is constructed,
    registered in a new container; [Y] is then resolved. *)
Definition X_and_Y (fails : bool) : Js.Obj Resolver :=
  let opts := Some {| opt_lifetime := None; opt_tags := None;
                      opt_dispose := Some (λ _ : Value, fails);
                      opt_enabled := None |} in
  [ ("X", asSingletonFunction {| uses := []; outcome := Construct |} opts);
    ("Y", asSingletonFunction {| uses := ["X"]; outcome := Construct |} opts) ].

Definition Y_resolved (fails : bool) : State :=
  let '(refs, s) := literal (X_and_Y fails) (Awilix.createContainer initial) in
  snd (Awilix.resolve "Y" (registerDependencies refs s)).

(** A registration that asks for a new instance on every resolution. *)
Definition with_transient : State :=
  let '(refs, s) :=
    literal [("clock", Awilix.asFunction {| uses := []; outcome := Construct |} None)]
      assembled in
  registerDependencies refs s.

(** ** src/modules/users: repository, service and controller *)

(** The constructors of [UsersController.ts] and [UsersRepository.ts]. *)
Definition UsersController : Producer :=
  {| uses := ["usersService"; "tsRestServer"]; outcome := Construct |}.

Definition UsersRepository : Producer :=
  {| uses := ["database"]; outcome := Construct |}.

(** A row of the [user] table (db/migrations/001_create_user_table.ts). *)
Record UserRow := {
  user_id : Z;
  first_name : string;
  last_name : option string;
  created_at : Z;
  metadata : string
}.

(** [User], the type inferred from [USER_SCHEMA]. *)
Record User := {
  firstName : string;
  lastName : option string
}.

(** What a route handler can throw: the error the service constructs, or
    whatever the database driver rejects with. *)
Inductive ServiceError (DriverError : Type) :=
| Public (e : PublicNonRecoverableError (list string))
| Rejected (reason : DriverError).

Arguments Public {DriverError} e.
Arguments Rejected {DriverError} reason.

(** How a request to a route ends: the handler's own response, the exchange
    as the error handler left it, or the error handler thrown out of before
    it logged or replied. *)
Inductive RouteOutcome :=
| Served (status : Z) (body : User)
| Handled (exchange : Http (list string))
| HandlerThrew.

Section UsersFlow.

(** The database behind the [Kysely] instance, JavaScript's numbers, and what
    the driver rejects with. *)
Context {Db Num NewUser DriverError : Type}.

(** [selectFrom("user").selectAll().where("id", "=", id).executeTakeFirst()]
    and [insertInto("user").values(user).returningAll()
    .executeTakeFirstOrThrow()], run by the database. *)
Variable selectUser : Num → Db → DriverError + option UserRow.
Variable insertUser : NewUser → Db → (DriverError + UserRow) * Db.

(** [Number.parseInt(_, 10)] *)
Variable parseInt : string → Num.

Definition UsersRepository_getUser (id : Num) (db : Db) : DriverError + option UserRow :=
  selectUser id db.

Definition UsersRepository_createUser (user : NewUser) (db : Db) : (DriverError + UserRow) * Db :=
  insertUser user db.

(** src/modules/users/services/UsersService.ts *)
Definition UsersService_getUser (id : Num) (db : Db) : ServiceError DriverError + User :=
  match UsersRepository_getUser id db with
  | inl reason => inl (Rejected reason)
  | inr None =>
      inl (Public {| errorCode := "USER_NOT_FOUND";
                     message := "User not found";
                     httpStatusCode := Some 404%Z;
                     details := None |})
  | inr (Some user) =>
      inr {| firstName := first_name user; lastName := last_name user |}
  end.

Definition UsersService_createUser (user : NewUser) (db : Db) : (DriverError + UserRow) * Db :=
  UsersRepository_createUser user db.

(** The [getUser] handler of [UsersController.resolveRouter]. *)
Definition UsersController_getUser (userId : string) (db : Db) :
    ServiceError DriverError + (Z * User) :=
  match UsersService_getUser (parseInt userId) db with
  | inl e => inl e
  | inr user => inr (200%Z, user)
  end.

(** The guard of [PublicNonRecoverableError] on what a handler throws.  The
    guard of [InternalError] on each kind of thrown value: whether it accepts
    the service's error, whose properties are then read off that same
    object, and what it reads off a rejection that it accepts. *)
Variable isPublicNonRecoverableError :
  ServiceError DriverError → option (PublicNonRecoverableError (list string)).
Variable isInternalError_public : PublicNonRecoverableError (list string) → bool.
Variable isInternalError_rejected : DriverError → option (InternalError (list string)).

(** A rejection's [typeof], whether it is [null], and its [message]; and
    [JSON.stringify] on [details] and on thrown values. *)
Variable driver_typeof : DriverError → string.
Variable driver_is_null : DriverError → bool.
Variable driver_message : DriverError → string.
Variable JSON_stringify_details : list string → option string.
Variable JSON_stringify : ServiceError DriverError → option (option string).

Definition isInternalError (e : ServiceError DriverError) : option (InternalError (list string)) :=
  match e with
  | Public p =>
      if isInternalError_public p
      then Some {| internal_message := message p; internal_errorCode := errorCode p;
                   internal_details := details p |}
      else None
  | Rejected reason => isInternalError_rejected reason
  end.

(** The service's error is an object made with [new]. *)
Definition thrown_typeof (e : ServiceError DriverError) : string :=
  match e with
  | Public _ => "object"
  | Rejected reason => driver_typeof reason
  end.

Definition thrown_is_null (e : ServiceError DriverError) : bool :=
  match e with
  | Public _ => false
  | Rejected reason => driver_is_null reason
  end.

Definition thrown_message (e : ServiceError DriverError) : string :=
  match e with
  | Public p => message p
  | Rejected reason => driver_message reason
  end.

(** [resolveLogObject] and the error handler, as [startApp] installs it,
    on what a route throws. *)
Definition log_object (e : ServiceError DriverError) : option LogObject :=
  resolveLogObject thrown_typeof thrown_is_null thrown_message isInternalError
    JSON_stringify_details JSON_stringify e.

Definition handle (e : ServiceError DriverError) (h : Http (list string)) :
    option (Http (list string)) :=
  errorHandler thrown_typeof thrown_is_null thrown_message
    isPublicNonRecoverableError isInternalError JSON_stringify_details JSON_stringify e h.

(** [GET /users/:userId] in the application: [startApp] sets [errorHandler]
    as the error handler, so what the route's handler throws ends there. *)
Definition GET_user (userId : string) (db : Db) (h : Http (list string)) : RouteOutcome :=
  match UsersController_getUser userId db with
  | inr (status, body) => Served status body
  | inl e =>
      match handle e h with
      | Some exchange => Handled exchange
      | None => HandlerThrew
      end
  end.

End UsersFlow.

(** ** test/dbCleaner.ts *)

Section DbCleaner.

Context {Db DriverError : Type}.

(** [db.deleteFrom(table).execute()] *)
Variable deleteFrom : string → Db → DriverError + Db.

(** [cleanDatabase(db, tables)]: the tables are emptied one after the other;
    a rejected delete ends the loop. *)
Fixpoint cleanDatabase (tables : list string) (db : Db) : option DriverError * Db :=
  match tables with
  | [] => (None, db)
  | table :: rest =>
      match deleteFrom table db with
      | inl reason => (Some reason, db)
      | inr db' => cleanDatabase rest db'
      end
  end.

End DbCleaner.

(** A database for the examples: the rows of each table by the table's name;
    a table that does not exist cannot be deleted from, and an id that is no
    number cannot be compared. *)
Definition store_deleteFrom (table : string) (db : Js.Obj (list UserRow)) :
    string + Js.Obj (list UserRow) :=
  match Js.get db table with
  | Some _ => inr (Js.put db table [])
  | None => inl "relation does not exist"
  end.

Definition store_rows (table : string) (db : Js.Obj (list UserRow)) : list UserRow :=
  default [] (Js.get db table).

Definition store_selectUser (id : option Z) (db : Js.Obj (list UserRow)) :
    string + option UserRow :=
  match id with
  | None => inl "invalid input syntax for type integer"
  | Some n => inr (head (filter (λ u, user_id u = n) (store_rows "user" db)))
  end.

(** A stand-in for [Number.parseInt] on the examples' ids. *)
Definition store_parseInt (userId : string) : option Z :=
  if decide (userId = "1") then Some 1%Z
  else if decide (userId = "2") then Some 2%Z
  else None.

Definition store_guard (e : ServiceError string) : option (PublicNonRecoverableError (list string)) :=
  match e with
  | Public p => Some p
  | Rejected _ => None
  end.

(** The guard of [InternalError] accepts neither the service's error nor
    the driver's rejections, which are [Error] objects with the reason as
    their [message]. *)
Definition store_internal_public (p : PublicNonRecoverableError (list string)) : bool := false.

Definition store_internal_rejected (reason : string) : option (InternalError (list string)) := None.

Definition store_typeof (reason : string) : string := "object".

Definition store_is_null (reason : string) : bool := false.

Definition store_stringify_details (details : list string) : option string :=
  Some (String.concat "," details).

Definition store_stringify (e : ServiceError string) : option (option string) :=
  Some (Some "{}").

Definition one_user : Js.Obj (list UserRow) :=
  [ ("user", [ {| user_id := 1; first_name := "Test"; last_name := Some "Test2";
                  created_at := 0; metadata := "{}" |} ]) ].

(** The route over the examples' database. *)
Definition store_GET_user : string → Js.Obj (list UserRow) → Http (list string) → RouteOutcome :=
  GET_user store_selectUser store_parseInt store_guard store_internal_public
    store_internal_rejected store_typeof store_is_null id store_stringify_details
    store_stringify.

(** The lifetime the container acts on makes it keep the value. *)
Definition caches (r : Resolver) : Prop := default TRANSIENT (lifetime r) ≠ TRANSIENT.

(** Two sets of resolvers with no name in common, allocated one after the
    other in an empty memory. *)
Definition two_modules : Js.Obj nat * Js.Obj nat * State :=
  let '(users, s1) := literal (resolveUserDependencies UsersController UsersRepository) initial in
  let '(orders, s2) := literal resolveOrderDependencies s1 in
  (users, orders, s2).

(** [usersService] has been resolved in the assembled container. *)
Definition service_resolved : State := snd (Awilix.resolve "usersService" assembled).

Definition stand_in_after_resolution : Js.Obj nat * State := literal stand_in service_resolved.

(** The container assembled in a process whose environment fails the schema. *)
Definition assembled_invalid : State :=
  assemble UsersController UsersRepository
    {| awilixManager := 1000; env_valid := false |} initial.

(** A database registered with a disposer among its options, and resolved. *)
Definition with_disposer : State :=
  let opts := Some {| opt_lifetime := None; opt_tags := None;
                      opt_dispose := Some (λ _ : Value, false);
                      opt_enabled := None |} in
  let '(refs, s) :=
    literal [("database",
              asSingletonFunction {| uses := ["config"]; outcome := Construct |} opts)]
      assembled in
  registerDependencies refs s.
(** * Properties *)

(** ** Objects *)

Section JsFacts.

Context {V : Type}.
Implicit Types (o : Js.Obj V) (k : string) (v : V).

Lemma get_put_eq o k v : Js.get (Js.put o k v) k = Some v.
Proof.
  induction o as [|[k' v'] o IH]; simpl.
  - by rewrite decide_True.
  - destruct (decide (k' = k)) as [->|Hne]; simpl.
    + by rewrite decide_True.
    + by rewrite decide_False.
Qed.

Lemma get_put_ne o k k' v : k ≠ k' → Js.get (Js.put o k v) k' = Js.get o k'.
Proof.
  intros Hne. induction o as [|[k0 v0] o IH]; simpl.
  - by rewrite decide_False.
  - destruct (decide (k0 = k)) as [->|Hk0]; simpl.
    + by rewrite !decide_False.
    + destruct (decide (k0 = k')); [done | apply IH].
Qed.

Lemma get_None o k : Js.get o k = None ↔ k ∉ Js.keys o.
Proof.
  unfold Js.keys. induction o as [|[k' v'] o IH]; simpl.
  - split; [intros _; apply not_elem_of_nil | done].
  - rewrite not_elem_of_cons. destruct (decide (k' = k)) as [->|Hne].
    + split; [done | intros [? _]; done].
    + rewrite IH. split; [by intros ? | by intros [_ ?]].
Qed.

Lemma get_is_Some o k : is_Some (Js.get o k) ↔ k ∈ Js.keys o.
Proof.
  destruct (Js.get o k) eqn:E.
  - split; [intros _ | eauto].
    destruct (decide (k ∈ Js.keys o)) as [|Hn]; [done|].
    apply get_None in Hn. congruence.
  - split; [intros [? ?]; done|]. intros Hin. by apply get_None in E.
Qed.

Lemma get_Some_elem o k v : Js.get o k = Some v → (k, v) ∈ o.
Proof.
  induction o as [|[k' v'] o IH]; simpl; [done|].
  destruct (decide (k' = k)) as [->|Hne].
  - intros [= ->]. apply list_elem_of_here.
  - intros H. apply list_elem_of_further. by apply IH.
Qed.

Lemma elem_get_Some o k v : NoDup (Js.keys o) → (k, v) ∈ o → Js.get o k = Some v.
Proof.
  unfold Js.keys. induction o as [|[k' v'] o IH]; simpl.
  - intros _ H. by apply elem_of_nil in H.
  - intros Hnd Hin. apply NoDup_cons in Hnd as [Hk' Hnd].
    apply elem_of_cons in Hin as [[= -> ->]|Hin].
    + by rewrite decide_True.
    + rewrite decide_False; [by apply IH|].
      intros ->. apply Hk'. apply list_elem_of_fmap. by exists (k, v).
Qed.

Lemma put_absent o k v : Js.get o k = None → Js.put o k v = o ++ [(k, v)].
Proof.
  induction o as [|[k' v'] o IH]; simpl; [done|].
  destruct (decide (k' = k)); [done|]. intros H. by rewrite IH.
Qed.

Lemma keys_put_present o k v : is_Some (Js.get o k) → Js.keys (Js.put o k v) = Js.keys o.
Proof.
  unfold Js.keys. induction o as [|[k' v'] o IH]; simpl.
  - intros [? ?]; done.
  - destruct (decide (k' = k)); simpl; [done|]. intros H. f_equal. by apply IH.
Qed.

Lemma keys_put o k v :
  Js.keys (Js.put o k v) = if decide (k ∈ Js.keys o) then Js.keys o else Js.keys o ++ [k].
Proof.
  destruct (decide (k ∈ Js.keys o)) as [Hin|Hn].
  - apply keys_put_present. by apply get_is_Some.
  - apply get_None in Hn. rewrite (put_absent _ _ _ Hn).
    unfold Js.keys. by rewrite fmap_app.
Qed.

Lemma NoDup_keys_put o k v : NoDup (Js.keys o) → NoDup (Js.keys (Js.put o k v)).
Proof.
  intros Hnd. rewrite keys_put. case_decide; [done|].
  apply NoDup_app. split_and!; [done | | apply NoDup_singleton].
  intros x Hx Hk. apply list_elem_of_singleton in Hk. by subst.
Qed.

Lemma elem_keys_put o k k' v : k' ∈ Js.keys (Js.put o k v) ↔ k' = k ∨ k' ∈ Js.keys o.
Proof.
  rewrite keys_put. case_decide as Hk.
  - split; [by right | intros [->|?]; done].
  - rewrite elem_of_app, list_elem_of_singleton. tauto.
Qed.

End JsFacts.

(** ** What a resolution changes *)

Lemma grows_refl st s : grows st s s.
Proof.
  unfold grows. split_and!; try done.
  - exists []. rewrite app_nil_r. split; [done|]. intros k _. apply not_elem_of_nil.
  - exists []. by rewrite app_nil_r.
  - exists []. rewrite app_nil_r. split; [done|]. intros k _. apply not_elem_of_nil.
Qed.

Lemma grows_trans st s1 s2 s3 : grows st s1 s2 → grows st s2 s3 → grows st s1 s3.
Proof.
  intros (Ho & Hr & Hd & (c1 & Hc1 & Hk1) & (i1 & Hi1) & (l1 & Hl1 & Hn1))
         (Ho' & Hr' & Hd' & (c2 & Hc2 & Hk2) & (i2 & Hi2) & (l2 & Hl2 & Hn2)).
  unfold grows. split_and!; try congruence.
  - exists (c1 ++ c2). split; [by rewrite Hc2, Hc1, app_assoc|].
    intros k Hk. unfold Js.keys. rewrite fmap_app, elem_of_app.
    intros [?|?]; [by eapply Hk1 | by eapply Hk2].
  - exists (i1 ++ i2). by rewrite Hi2, Hi1, app_assoc.
  - exists (l1 ++ l2). split; [by rewrite Hl2, Hl1, app_assoc|].
    intros k Hk. rewrite elem_of_app. intros [?|?]; [by eapply Hn1 | by eapply Hn2].
Qed.

Lemma grows_weaken st st' s s' : (∀ k, k ∈ st → k ∈ st') → grows st' s s' → grows st s s'.
Proof.
  intros Hsub (Ho & Hr & Hd & (c1 & Hc1 & Hk1) & Hi & (l1 & Hl1 & Hn1)).
  unfold grows. split_and!; try done.
  - exists c1. split; [done|]. intros k Hk. by apply Hk1, Hsub.
  - exists l1. split; [done|]. intros k Hk. by apply Hn1, Hsub.
Qed.

Lemma grows_set_calls st name s :
  name ∉ st → grows st s (set_calls (λ c, c ++ [name]) s).
Proof.
  intros Hn. unfold grows; simpl. split_and!; try done.
  - exists []. rewrite app_nil_r. split; [done|]. intros k _. apply not_elem_of_nil.
  - exists []. by rewrite app_nil_r.
  - exists [name]. split; [done|]. intros k Hk Hin.
    apply list_elem_of_singleton in Hin. by subst.
Qed.

Lemma grows_finish st p name deps s r s' :
  Awilix.finish p name deps s = (r, s') → grows st s s'.
Proof.
  unfold Awilix.finish. destruct (outcome p); intros [= <- <-]; try apply grows_refl.
  unfold grows; simpl. split_and!; try done.
  - exists []. rewrite app_nil_r. split; [done|]. intros k _. apply not_elem_of_nil.
  - by eexists.
  - exists []. rewrite app_nil_r. split; [done|]. intros k _. apply not_elem_of_nil.
Qed.

Lemma grows_cache_put st name e s :
  name ∉ st → Js.get (cache s) name = None →
  grows st s (set_cache (λ c, Js.put c name e) s).
Proof.
  intros Hn Hmiss. unfold grows; simpl. split_and!; try done.
  - exists [(name, e)]. split; [by apply put_absent|].
    intros k Hk Hin. apply list_elem_of_singleton in Hin. simpl in Hin. by subst.
  - exists []. by rewrite app_nil_r.
  - exists []. rewrite app_nil_r. split; [done|]. intros k _. apply not_elem_of_nil.
Qed.

Lemma get_app_Some {V} (o new : Js.Obj V) k v :
  Js.get o k = Some v → Js.get (o ++ new) k = Some v.
Proof.
  induction o as [|[k' v'] o IH]; simpl; [done|].
  destruct (decide (k' = k)); [done | apply IH].
Qed.

Lemma get_app_None {V} (o new : Js.Obj V) k :
  Js.get o k = None → k ∉ Js.keys new → Js.get (o ++ new) k = None.
Proof.
  intros Ho Hn. apply get_None. unfold Js.keys. rewrite fmap_app, elem_of_app.
  intros [H|H]; [by apply get_None in Ho | done].
Qed.

Lemma grows_cache_kept st s s' k e :
  grows st s s' → Js.get (cache s) k = Some e → Js.get (cache s') k = Some e.
Proof.
  intros (_ & _ & _ & (new & -> & _) & _) H. by apply get_app_Some.
Qed.

Lemma grows_cache_missed st s s' k :
  grows st s s' → k ∈ st → Js.get (cache s) k = None → Js.get (cache s') k = None.
Proof.
  intros (_ & _ & _ & (new & -> & Hk) & _) Hin H. apply get_app_None; auto.
Qed.

Lemma grows_deref st s s' ref : grows st s s' → deref s' ref = deref s ref.
Proof. intros (Ho & _). unfold deref. by rewrite Ho. Qed.

Lemma resolve_each_grows st rec names :
  (∀ n s r s', rec n s = Some (r, s') → grows st s s') →
  ∀ s r s', Awilix.resolve_each rec names s = Some (r, s') → grows st s s'.
Proof.
  intros Hrec. induction names as [|n ns IH]; simpl; intros s r s' H.
  - injection H as <- <-. apply grows_refl.
  - destruct (rec n s) as [[[v|e] s1]|] eqn:E1; [| |done].
    + destruct (Awilix.resolve_each rec ns s1) as [[[vs|e] s2]|] eqn:E2; [| |done];
        injection H as <- <-; (eapply grows_trans; [by eapply Hrec | by eapply IH]).
    + injection H as <- <-. by eapply Hrec.
Qed.

(** A producer that was entered is logged once, at the point of entry, and
    whatever it resolves keeps off the names under construction. *)
Lemma run_producer_grows st rec name ref s r s' :
  (∀ n s r s', rec n s = Some (r, s') → grows (st ++ [name]) s s') →
  Awilix.run_producer rec name ref s = Some (r, s') →
  (s' = s ∧ r = Err (TypeError name)) ∨
  grows (st ++ [name]) (set_calls (λ c, c ++ [name]) s) s'.
Proof.
  intros Hrec. unfold Awilix.run_producer.
  destruct (resolve (deref s ref)) as [p|]; [|intros [= <- <-]; by left].
  destruct (Awilix.resolve_each rec (uses p) _) as [[[deps|e] s1]|] eqn:E; [| |done].
  - intros [= Hf]. right. eapply grows_trans.
    + by eapply resolve_each_grows.
    + by eapply grows_finish.
  - intros [= <- <-]. right. by eapply resolve_each_grows.
Qed.

Lemma run_producer_grows_outer st rec name ref s r s' :
  (∀ n s r s', rec n s = Some (r, s') → grows (st ++ [name]) s s') →
  name ∉ st →
  Awilix.run_producer rec name ref s = Some (r, s') → grows st s s'.
Proof.
  intros Hrec Hn H. destruct (run_producer_grows _ _ _ _ _ _ _ Hrec H) as [[-> _]|Hg].
  - apply grows_refl.
  - eapply grows_trans; [by apply grows_set_calls|].
    eapply grows_weaken; [|exact Hg]. intros k Hk. apply elem_of_app. by left.
Qed.

Lemma resolve_fuel_grows fuel :
  ∀ st name s r s', Awilix.resolve_fuel fuel st name s = Some (r, s') → grows st s s'.
Proof.
  induction fuel as [|fuel IH]; intros st name s r s' H; [done|].
  simpl in H. case_bool_decide as Hin; [injection H as <- <-; apply grows_refl|].
  destruct (Js.get (registrations s) name) as [ref|]; [|injection H as <- <-; apply grows_refl].
  assert (Hout : ∀ r1 s1, Awilix.run_producer (Awilix.resolve_fuel fuel (st ++ [name])) name ref s
                          = Some (r1, s1) → grows st s s1).
  { intros r1 s1. apply run_producer_grows_outer; [apply IH | done]. }
  assert (Hmiss : ∀ r1 s1, Awilix.run_producer (Awilix.resolve_fuel fuel (st ++ [name])) name ref s
                          = Some (r1, s1) →
                          Js.get (cache s) name = None → Js.get (cache s1) name = None).
  { intros r1 s1 Hr Hc.
    destruct (run_producer_grows st _ _ _ _ _ _ (IH (st ++ [name])) Hr) as [[-> _]|Hg]; [done|].
    eapply grows_cache_missed; [exact Hg | | done].
    apply elem_of_app. right. apply list_elem_of_singleton. done. }
  destruct (default TRANSIENT (lifetime (deref s ref))).
  - by eapply Hout.
  - destruct (Js.get (cache s) name) as [cached|] eqn:Hc; [injection H as <- <-; apply grows_refl|].
    destruct (Awilix.run_producer _ name ref s) as [[[v|e] s1]|] eqn:Hr; [| |done].
    + injection H as <- <-. eapply grows_trans; [by eapply Hout|].
      apply grows_cache_put; [done | by eapply Hmiss].
    + injection H as <- <-. by eapply Hout.
  - destruct (Js.get (cache s) name) as [cached|] eqn:Hc; [injection H as <- <-; apply grows_refl|].
    destruct (Awilix.run_producer _ name ref s) as [[[v|e] s1]|] eqn:Hr; [| |done].
    + injection H as <- <-. eapply grows_trans; [by eapply Hout|].
      apply grows_cache_put; [done | by eapply Hmiss].
    + injection H as <- <-. by eapply Hout.
Qed.

(** ** Resolution returns *)

Lemma resolve_each_total rec names regs :
  (∀ n s, registrations s = regs → is_Some (rec n s)) →
  (∀ n s r s', rec n s = Some (r, s') → registrations s' = registrations s) →
  ∀ s, registrations s = regs → is_Some (Awilix.resolve_each rec names s).
Proof.
  intros Htot Hpres. induction names as [|n ns IH]; simpl; intros s Hs; [by eexists|].
  destruct (Htot n s Hs) as [[[v|e] s1] E1]; rewrite E1; [|by eexists].
  destruct (IH s1) as [[[vs|e] s2] E2]; [|rewrite E2; by eexists..].
  by rewrite (Hpres _ _ _ _ E1).
Qed.

Lemma run_producer_total rec name ref s :
  (∀ n s', registrations s' = registrations s → is_Some (rec n s')) →
  (∀ n s r s', rec n s = Some (r, s') → registrations s' = registrations s) →
  is_Some (Awilix.run_producer rec name ref s).
Proof.
  intros Htot Hpres. unfold Awilix.run_producer.
  destruct (resolve (deref s ref)) as [p|]; [|by eexists].
  destruct (resolve_each_total rec (uses p) (registrations s) Htot Hpres
              (set_calls (λ c, c ++ [name]) s) eq_refl) as [[[deps|e] s1] E];
    rewrite E; [|by eexists].
  destruct (Awilix.finish p name deps s1). by eexists.
Qed.

(** The stack holds distinct registered names, so it is never longer than the
    registrations, and the bound is never reached. *)
Lemma resolve_fuel_total fuel :
  ∀ st name s,
    NoDup st →
    (∀ k, k ∈ st → k ∈ Js.keys (registrations s)) →
    length (registrations s) < fuel + length st →
    is_Some (Awilix.resolve_fuel fuel st name s).
Proof.
  induction fuel as [|fuel IH]; intros st name s Hnd Hsub Hlen.
  - exfalso. assert (length st ≤ length (Js.keys (registrations s))) as Hle.
    { apply submseteq_length. by apply NoDup_submseteq. }
    unfold Js.keys in Hle. rewrite length_fmap in Hle. lia.
  - simpl. case_bool_decide as Hin; [by eexists|].
    destruct (Js.get (registrations s) name) as [ref|] eqn:Hreg; [|by eexists].
    assert (is_Some (Awilix.run_producer (Awilix.resolve_fuel fuel (st ++ [name])) name ref s))
      as [[r1 s1] Hrun].
    { apply run_producer_total.
      - intros n s2 Hs2. apply IH.
        + apply NoDup_app. split_and!; [done | | apply NoDup_singleton].
          intros x Hx Hx'. apply list_elem_of_singleton in Hx'. by subst.
        + intros k Hk. rewrite Hs2. apply elem_of_app in Hk as [Hk|Hk]; [by apply Hsub|].
          apply list_elem_of_singleton in Hk. subst. apply get_is_Some. by eexists.
        + rewrite Hs2, length_app. simpl. lia.
      - intros n s2 r2 s2' H2. by apply resolve_fuel_grows in H2 as (_ & ? & _). }
    rewrite Hrun.
    destruct (default TRANSIENT (lifetime (deref s ref))); [by eexists| |];
      (destruct (Js.get (cache s) name); [by eexists|]; destruct r1; by eexists).
Qed.

Lemma resolve_returns name s :
  Awilix.resolve_fuel (Awilix.resolve_bound s) [] name s = Some (Awilix.resolve name s).
Proof.
  unfold Awilix.resolve.
  destruct (resolve_fuel_total (Awilix.resolve_bound s) [] name s) as [x ->]; [| | |done].
  - apply NoDup_nil_2.
  - intros k Hk. by apply elem_of_nil in Hk.
  - unfold Awilix.resolve_bound. simpl. lia.
Qed.

Lemma resolve_grows name s r s' : Awilix.resolve name s = (r, s') → grows [] s s'.
Proof.
  intros H. eapply (resolve_fuel_grows _ [] name s r s').
  rewrite resolve_returns. by rewrite H.
Qed.

(** ** Cached names *)

Lemma resolve_cached name s ref e :
  Js.get (registrations s) name = Some ref →
  default TRANSIENT (lifetime (deref s ref)) ≠ TRANSIENT →
  Js.get (cache s) name = Some e →
  Awilix.resolve name s = (Ok (entry_value e), s).
Proof.
  intros Hreg Hlt Hc. unfold Awilix.resolve, Awilix.resolve_bound. simpl.
  rewrite Hreg. destruct (default TRANSIENT (lifetime (deref s ref))); [done| |];
    by rewrite Hc.
Qed.

Lemma filter_absent (name : string) (l : list string) :
  name ∉ l → filter (λ n, n = name) l = [].
Proof.
  induction l as [|x l IH]; [done|]. intros Hn.
  apply not_elem_of_cons in Hn as [Hx Hn].
  rewrite filter_cons_False; [by apply IH|]. intros ->. by apply Hx.
Qed.

Lemma times_called_app name s new s' :
  calls s' = calls s ++ new → name ∉ new → times_called name s' = times_called name s.
Proof.
  intros Hc Hn. unfold times_called.
  rewrite Hc, filter_app, length_app, (filter_absent _ _ Hn). simpl. lia.
Qed.

Lemma grows_times_called st s s' name :
  grows st s s' → name ∈ st → times_called name s' = times_called name s.
Proof.
  intros (_ & _ & _ & _ & _ & (new & Hc & Hn)) Hin.
  eapply times_called_app; [done | by apply Hn].
Qed.

(** The first successful resolution of a cached lifetime enters the producer
    once and leaves its value in the cache. *)
Lemma resolve_constructs name s ref v s' :
  Js.get (registrations s) name = Some ref →
  default TRANSIENT (lifetime (deref s ref)) ≠ TRANSIENT →
  Js.get (cache s) name = None →
  Awilix.resolve name s = (Ok v, s') →
  Js.get (cache s') name = Some {| entry_resolver := ref; entry_value := v |} ∧
  times_called name s' = S (times_called name s).
Proof.
  intros Hreg Hlt Hc H. pose proof (resolve_returns name s) as Hf. rewrite H in Hf.
  unfold Awilix.resolve_bound in Hf. simpl in Hf.
  rewrite Hreg in Hf.
  assert (match Awilix.run_producer (Awilix.resolve_fuel (length (registrations s)) [name]) name ref s with
          | Some (Ok resolved, s1) =>
              Some (Ok resolved, set_cache (λ c, Js.put c name
                      {| entry_resolver := ref; entry_value := resolved |}) s1)
          | other => other
          end = Some (Ok v, s')) as Hrun.
  { destruct (default TRANSIENT (lifetime (deref s ref))); [done| |]; by rewrite Hc in Hf. }
  clear Hf.
  destruct (Awilix.run_producer _ name ref s) as [[[v1|e] s1]|] eqn:Hr; [|done..].
  injection Hrun as -> <-. simpl. split; [apply get_put_eq|].
  destruct (run_producer_grows [] _ _ _ _ _ _
              (resolve_fuel_grows _ ([] ++ [name])) Hr) as [[_ ?]|Hg]; [done|].
  unfold times_called at 1. simpl. fold (times_called name s1).
  rewrite (grows_times_called _ _ _ name Hg) by (apply list_elem_of_singleton; done).
  unfold times_called. simpl. rewrite filter_app, length_app. simpl.
  rewrite filter_cons_True by done. simpl. lia.
Qed.

(** ** A held value stays *)

Lemma grows_held st s s' name ref e : grows st s s' → held name ref e s → held name ref e s'.
Proof.
  intros Hg (Hreg & Hlt & Hc). pose proof Hg as (Ho & Hr & _). unfold held.
  rewrite Hr, (grows_deref _ _ _ _ Hg). split_and!; [done..|].
  by eapply grows_cache_kept.
Qed.

Lemma resolve_each_keeps (P : State → Prop) (f : State → nat) rec names :
  (∀ n s r s', P s → rec n s = Some (r, s') → P s' ∧ f s' = f s) →
  ∀ s r s', P s → Awilix.resolve_each rec names s = Some (r, s') → P s' ∧ f s' = f s.
Proof.
  intros Hrec. induction names as [|n ns IH]; simpl; intros s r s' HP H.
  - by injection H as <- <-.
  - destruct (rec n s) as [[[v|e] s1]|] eqn:E1; [| |done].
    + destruct (Hrec _ _ _ _ HP E1) as [HP1 Hf1].
      destruct (Awilix.resolve_each rec ns s1) as [[[vs|e] s2]|] eqn:E2; [| |done];
        injection H as <- <-; destruct (IH _ _ _ HP1 E2) as [HP2 Hf2];
        (split; [done | congruence]).
    + injection H as <- <-. by eapply Hrec.
Qed.









(** A successful resolution of a caching lifetime leaves the value held. *)
Lemma resolve_holds name s ref v s1 :
  Js.get (registrations s) name = Some ref →
  default TRANSIENT (lifetime (deref s ref)) ≠ TRANSIENT →
  Awilix.resolve name s = (Ok v, s1) →
  ∃ e, held name ref e s1 ∧ entry_value e = v ∧
       (Js.get (cache s) name = None → times_called name s1 = S (times_called name s)).
Proof.
  intros Hget Hlt Hres. destruct (Js.get (cache s) name) as [e|] eqn:Hc.
  - rewrite (resolve_cached _ _ _ _ Hget Hlt Hc) in Hres. injection Hres as <- <-.
    by exists e.
  - destruct (resolve_constructs _ _ _ _ _ Hget Hlt Hc Hres) as [Hc1 Hn].
    pose proof (resolve_grows _ _ _ _ Hres) as Hg. pose proof Hg as (_ & Hr & _).
    exists {| entry_resolver := ref; entry_value := v |}. split_and!; [|done..].
    unfold held. by rewrite Hr, (grows_deref _ _ _ _ Hg).
Qed.

Lemma held_resolve name ref e s :
  held name ref e s → Awilix.resolve name s = (Ok (entry_value e), s).
Proof. intros (? & ? & ?). by eapply resolve_cached. Qed.

(** ** The assembled application *)

Example startApp_collects_usersController :
  fst (startApp UsersController_doc UsersRepository_doc app_valid initial)
  = Returned [("usersController", 5)] ∧
  Js.keys (cache (snd (startApp UsersController_doc UsersRepository_doc app_valid initial)))
  = ["config"; "database"; "usersRepository"; "usersService"; "tsRestServer";
     "usersController"] ∧
  calls (snd (startApp UsersController_doc UsersRepository_doc app_valid initial))
  = ["usersController"; "usersService"; "usersRepository"; "database"; "config";
     "tsRestServer"].
Proof. by vm_compute. Qed.

Example startApp_uncaught_on_invalid_env :
  fst (startApp UsersController_doc UsersRepository_doc
         {| awilixManager := 1000; env_valid := false |} initial)
  = Uncaught (Thrown "config").
Proof. by vm_compute. Qed.

Example unregistered_name :
  fst (Awilix.resolve "mailer" assembled) = Err (AwilixResolutionError "mailer" [] false).
Proof. by vm_compute. Qed.

Example cyclic_dependencies :
  fst (startApp {| uses := ["usersController"]; outcome := Construct |}
         UsersRepository_doc app_valid initial)
  = Uncaught (AwilixResolutionError "usersController" ["usersController"] true).
Proof. by vm_compute. Qed.

Example transient_is_constructed_again :
  fst (Awilix.resolve "clock" with_transient) = Ok 0 ∧
  fst (Awilix.resolve "clock" (snd (Awilix.resolve "clock" with_transient))) = Ok 1.
Proof. by vm_compute. Qed.

(** ** Singleton lifetime *)






(** ** Registration *)

Lemma registerDependency_objects s k r :
  objects (registerDependency s (k, r)) = objects s ++ [deref s r].
Proof. done. Qed.

Lemma registerDependency_registrations s k r :
  registrations (registerDependency s (k, r)) = Js.put (registrations s) k (length (objects s)).
Proof. done. Qed.

Lemma registerDependencies_cons k r rest s :
  registerDependencies ((k, r) :: rest) s = registerDependencies rest (registerDependency s (k, r)).
Proof. done. Qed.

Lemma deref_app_l s s' extra ref :
  objects s' = objects s ++ extra → ref < length (objects s) → deref s' ref = deref s ref.
Proof. intros Ho Hlt. unfold deref. by rewrite Ho, lookup_app_l. Qed.

(** The container is only written to: the cache, the constructed objects and
    the logs are as before. *)
Lemma registerDependencies_rest resolvers :
  ∀ s, cache (registerDependencies resolvers s) = cache s ∧
       instances (registerDependencies resolvers s) = instances s ∧
       calls (registerDependencies resolvers s) = calls s ∧
       disposed (registerDependencies resolvers s) = disposed s.
Proof.
  induction resolvers as [|[k r] rest IH]; intros s; [done|].
  rewrite registerDependencies_cons. by destruct (IH (registerDependency s (k, r))) as (-> & -> & -> & ->).
Qed.

(** One new object per entry, in the order of the entries, each with the
    properties its original had at the call. *)
Lemma registerDependencies_objects resolvers :
  ∀ s, (∀ k r, (k, r) ∈ resolvers → r < length (objects s)) →
       objects (registerDependencies resolvers s) = objects s ++ (deref s <$> resolvers.*2).
Proof.
  induction resolvers as [|[k r] rest IH]; intros s Hvalid; simpl.
  - by rewrite app_nil_r.
  - rewrite registerDependencies_cons, IH.
    + rewrite registerDependency_objects, <- app_assoc. simpl. do 2 f_equal.
      apply list_fmap_ext. intros i r' Hi.
      apply (deref_app_l _ _ [deref s r]); [done|].
      apply list_elem_of_lookup_2, list_elem_of_fmap in Hi as [[k' r''] [-> Hin]].
      apply (Hvalid k'). by apply list_elem_of_further.
    + intros k' r' Hin. rewrite registerDependency_objects, length_app. simpl.
      specialize (Hvalid k' r' (list_elem_of_further _ _ _ Hin)). lia.
Qed.

Lemma registerDependencies_other resolvers :
  ∀ s k, k ∉ Js.keys resolvers →
         Js.get (registrations (registerDependencies resolvers s)) k = Js.get (registrations s) k.
Proof.
  induction resolvers as [|[k' r] rest IH]; intros s k Hk; [done|].
  unfold Js.keys in Hk. simpl in Hk. apply not_elem_of_cons in Hk as [Hne Hk].
  rewrite registerDependencies_cons, IH by done.
  rewrite registerDependency_registrations. by apply get_put_ne.
Qed.

Lemma registerDependencies_at resolvers :
  ∀ s i k r, NoDup (Js.keys resolvers) → resolvers !! i = Some (k, r) →
    Js.get (registrations (registerDependencies resolvers s)) k = Some (length (objects s) + i).
Proof.
  induction resolvers as [|[k' r'] rest IH]; intros s i k r Hnd Hi; [done|].
  unfold Js.keys in Hnd. simpl in Hnd. apply NoDup_cons in Hnd as [Hk' Hnd].
  rewrite registerDependencies_cons. destruct i as [|i]; simpl in Hi.
  - injection Hi as -> ->. rewrite registerDependencies_other by done.
    rewrite registerDependency_registrations, get_put_eq. f_equal. lia.
  - rewrite (IH _ i k r Hnd Hi), registerDependency_objects, length_app. simpl. f_equal. lia.
Qed.

Lemma registerDependencies_keys resolvers :
  ∀ s k, k ∈ Js.keys (registrations (registerDependencies resolvers s)) ↔
         k ∈ Js.keys (registrations s) ∨ k ∈ Js.keys resolvers.
Proof.
  induction resolvers as [|[k' r'] rest IH]; intros s k.
  - simpl. split; [by left | intros [?|H]; [done | by apply elem_of_nil in H]].
  - rewrite registerDependencies_cons, IH, registerDependency_registrations, elem_keys_put.
    unfold Js.keys. simpl. rewrite elem_of_cons. tauto.
Qed.

Lemma registerDependencies_NoDup resolvers :
  ∀ s, NoDup (Js.keys (registrations s)) →
       NoDup (Js.keys (registrations (registerDependencies resolvers s))).
Proof.
  induction resolvers as [|[k' r'] rest IH]; intros s Hnd; [done|].
  rewrite registerDependencies_cons. apply IH.
  rewrite registerDependency_registrations. by apply NoDup_keys_put.
Qed.

(** What is found under a supplied key afterwards: a new object with the
    properties of the supplied one. *)
Lemma registerDependencies_copy resolvers s k r :
  NoDup (Js.keys resolvers) →
  (∀ k r, (k, r) ∈ resolvers → r < length (objects s)) →
  (k, r) ∈ resolvers →
  ∃ copy, Js.get (registrations (registerDependencies resolvers s)) k = Some copy ∧
          length (objects s) ≤ copy ∧
          objects (registerDependencies resolvers s) !! copy = Some (deref s r) ∧
          ∀ old, old < length (objects s) →
                 objects (registerDependencies resolvers s) !! old = objects s !! old.
Proof.
  intros Hnd Hvalid Hin. apply list_elem_of_lookup in Hin as [i Hi].
  exists (length (objects s) + i). rewrite (registerDependencies_objects _ _ Hvalid).
  split_and!.
  - by eapply registerDependencies_at.
  - lia.
  - rewrite lookup_app_r by lia. replace (length (objects s) + i - length (objects s)) with i by lia.
    rewrite !list_lookup_fmap, Hi. done.
  - intros old Hold. by rewrite lookup_app_l.
Qed.

Lemma registerDependencies_registration resolvers s k r :
  NoDup (Js.keys resolvers) →
  (∀ k r, (k, r) ∈ resolvers → r < length (objects s)) →
  (k, r) ∈ resolvers →
  registration (registerDependencies resolvers s) k = Some (deref s r).
Proof.
  intros Hnd Hvalid Hin.
  destruct (registerDependencies_copy _ _ _ _ Hnd Hvalid Hin) as (copy & Hget & _ & Hcopy & _).
  unfold registration. rewrite Hget. simpl. unfold deref at 1. by rewrite Hcopy.
Qed.

(** C9. [registerDependencies] registers, under each supplied key, a new
    object with exactly the properties the supplied resolver has at the call:
    the registered object is not the caller's, it did not exist before, and a
    later mutation of any object that existed at the call, the caller's
    resolvers among them, leaves what the container has under the key as it
    was. *)
Theorem registerDependencies_registers_copies (resolvers : Js.Obj nat) (s : State)
    (k : string) (r : nat) :
  NoDup (Js.keys resolvers) →
  (∀ k r, (k, r) ∈ resolvers → r < length (objects s)) →
  (k, r) ∈ resolvers →
  ∃ copy,
    Js.get (registrations (registerDependencies resolvers s)) k = Some copy ∧
    copy ≠ r ∧
    objects s !! copy = None ∧
    objects (registerDependencies resolvers s) !! copy = objects s !! r ∧
    objects (registerDependencies resolvers s) !! r = objects s !! r ∧
    ∀ (caller : nat) (o : Resolver),
      caller < length (objects s) →
      registration (mutate caller o (registerDependencies resolvers s)) k
      = Some (deref s r).
Proof.
  intros Hnd Hvalid Hin. pose proof (Hvalid _ _ Hin) as Hr.
  destruct (registerDependencies_copy _ _ _ _ Hnd Hvalid Hin) as (copy & Hget & Hnew & Hcopy & Hold).
  exists copy. split_and!; [done | lia | by apply lookup_ge_None | | by apply Hold |].
  - rewrite Hcopy. unfold deref. by destruct (lookup_lt_is_Some_2 _ _ Hr) as [o ->].
  - intros caller o Hcaller. unfold registration, mutate. simpl. rewrite Hget. simpl.
    unfold deref. simpl. rewrite list_lookup_insert_ne by lia. by rewrite Hcopy.
Qed.

Lemma registerDependencies_registers_copies_witness :
  NoDup (Js.keys users_literal.1) ∧
  (∀ k r, (k, r) ∈ users_literal.1 → r < length (objects users_literal.2)) ∧
  ("usersService", 2) ∈ users_literal.1 ∧
  ∃ copy,
    Js.get (registrations (registerDependencies users_literal.1 users_literal.2))
      "usersService" = Some copy ∧
    copy ≠ 2 ∧
    objects users_literal.2 !! copy = None ∧
    objects (registerDependencies users_literal.1 users_literal.2) !! copy
    = objects users_literal.2 !! 2 ∧
    objects (registerDependencies users_literal.1 users_literal.2) !! 2
    = objects users_literal.2 !! 2 ∧
    ∀ (caller : nat) (o : Resolver),
      caller < length (objects users_literal.2) →
      registration (mutate caller o (registerDependencies users_literal.1 users_literal.2))
        "usersService"
      = Some (deref users_literal.2 2).
Proof.
  assert (NoDup (Js.keys users_literal.1)) as Hnd.
  { apply (bool_decide_unpack (NoDup (Js.keys users_literal.1))). vm_compute. exact I. }
  assert (∀ k r, (k, r) ∈ users_literal.1 → r < length (objects users_literal.2)) as Hvalid.
  { intros k r Hin. vm_compute in Hin. vm_compute.
    repeat (apply elem_of_cons in Hin as [[= -> ->]|Hin]); [lia..|].
    by apply elem_of_nil in Hin. }
  assert (("usersService", 2) ∈ users_literal.1) as Hin.
  { vm_compute. do 2 apply list_elem_of_further. apply list_elem_of_here. }
  split; [exact Hnd|]. split; [exact Hvalid|]. split; [exact Hin|].
  exact (registerDependencies_registers_copies users_literal.1 users_literal.2
           "usersService" 2 Hnd Hvalid Hin).
Defined.

(** C3, as stated, fails: the assembled container holds [usersService], a
    second [registerDependencies] supplies the same key, and instead of a
    failure the registration found under the name afterwards is the newly
    supplied one. *)
Lemma duplicate_name_is_overwritten :
  registration assembled "usersService" = Some (asSingletonClass UsersService None) ∧
  "usersService" ∈ Js.keys stand_in_literal.1 ∧
  registration (registerDependencies stand_in_literal.1 stand_in_literal.2) "usersService"
  = Some (asSingletonFunction {| uses := []; outcome := Return 7 |} None) ∧
  registration (registerDependencies stand_in_literal.1 stand_in_literal.2) "usersService"
  ≠ registration assembled "usersService".
Proof.
  split_and!; [by vm_compute | | by vm_compute | by vm_compute].
  vm_compute. apply list_elem_of_here.
Qed.

(** C3, amended.  [registerDependencies] never rejects a name: under every
    supplied key the container afterwards has a copy of the supplied
    resolver, whether or not the key was registered before (the last
    registration wins); keys that are not supplied keep their registration;
    and the names of the registry stay distinct, being those it had and those
    supplied. *)
Theorem registerDependencies_last_wins (resolvers : Js.Obj nat) (s : State) :
  NoDup (Js.keys resolvers) →
  (∀ k r, (k, r) ∈ resolvers → r < length (objects s)) →
  (∀ k r, (k, r) ∈ resolvers →
     registration (registerDependencies resolvers s) k = Some (deref s r)) ∧
  (∀ k, k ∉ Js.keys resolvers →
     Js.get (registrations (registerDependencies resolvers s)) k
     = Js.get (registrations s) k) ∧
  (NoDup (Js.keys (registrations s)) →
     NoDup (Js.keys (registrations (registerDependencies resolvers s)))) ∧
  (∀ k, k ∈ Js.keys (registrations (registerDependencies resolvers s)) ↔
        k ∈ Js.keys (registrations s) ∨ k ∈ Js.keys resolvers).
Proof.
  intros Hnd Hvalid. split_and!.
  - intros k r Hin. by apply registerDependencies_registration.
  - intros k Hk. by apply registerDependencies_other.
  - apply registerDependencies_NoDup.
  - apply registerDependencies_keys.
Qed.

Lemma stand_in_literal_NoDup : NoDup (Js.keys stand_in_literal.1).
Proof. apply (bool_decide_unpack (NoDup (Js.keys stand_in_literal.1))). vm_compute. exact I. Defined.

Lemma stand_in_literal_valid :
  ∀ k r, (k, r) ∈ stand_in_literal.1 → r < length (objects stand_in_literal.2).
Proof.
  intros k r Hin. vm_compute in Hin. vm_compute.
  repeat (apply elem_of_cons in Hin as [[= -> ->]|Hin]); [lia..|].
  by apply elem_of_nil in Hin.
Defined.

Lemma registerDependencies_last_wins_witness :
  NoDup (Js.keys stand_in_literal.1) ∧
  (∀ k r, (k, r) ∈ stand_in_literal.1 → r < length (objects stand_in_literal.2)) ∧
  (∀ k r, (k, r) ∈ stand_in_literal.1 →
     registration (registerDependencies stand_in_literal.1 stand_in_literal.2) k
     = Some (deref stand_in_literal.2 r)) ∧
  (∀ k, k ∉ Js.keys stand_in_literal.1 →
     Js.get (registrations (registerDependencies stand_in_literal.1 stand_in_literal.2)) k
     = Js.get (registrations stand_in_literal.2) k) ∧
  (NoDup (Js.keys (registrations stand_in_literal.2)) →
     NoDup (Js.keys (registrations (registerDependencies stand_in_literal.1 stand_in_literal.2)))) ∧
  (∀ k, k ∈ Js.keys (registrations (registerDependencies stand_in_literal.1 stand_in_literal.2)) ↔
        k ∈ Js.keys (registrations stand_in_literal.2) ∨ k ∈ Js.keys stand_in_literal.1).
Proof.
  split; [exact stand_in_literal_NoDup|]. split; [exact stand_in_literal_valid|].
  exact (registerDependencies_last_wins stand_in_literal.1 stand_in_literal.2
           stand_in_literal_NoDup stand_in_literal_valid).
Defined.

(** C4, as stated, fails: the orders module's service reads
    [usersRepository], which the users module owns and does not export, and
    yet [registerDependencies] registers it, the registry is not what it was
    before, and the service resolves to an object that holds the users
    module's repository. *)
Lemma boundary_is_not_enforced :
  "usersRepository" ∈ UsersModuleDependencies ∧
  ("usersRepository" ∉ UsersModulePublicDependencies) ∧
  "usersRepository" ∈ uses OrdersService ∧
  registration (registerDependencies orders_literal.1 orders_literal.2) "ordersService"
  = Some (asSingletonClass OrdersService None) ∧
  registrations (registerDependencies orders_literal.1 orders_literal.2)
  ≠ registrations assembled ∧
  fst (Awilix.resolve "ordersService"
         (registerDependencies orders_literal.1 orders_literal.2)) = Ok 3 ∧
  instances (snd (Awilix.resolve "ordersService"
                    (registerDependencies orders_literal.1 orders_literal.2))) !! 3
  = Some [2] ∧
  fst (Awilix.resolve "usersRepository"
         (snd (Awilix.resolve "ordersService"
                 (registerDependencies orders_literal.1 orders_literal.2)))) = Ok 2.
Proof.
  split_and!; try by vm_compute.
  - vm_compute. do 2 apply list_elem_of_further. apply list_elem_of_here.
  - vm_compute. intros Hin. apply list_elem_of_singleton in Hin. discriminate.
  - vm_compute. apply list_elem_of_here.
Qed.

(** C4, amended.  [registerDependencies] knows no owner and no export: a
    descriptor whose producer reads a name of the users module is registered
    like any other, whether or not that name is among the module's public
    dependencies; every descriptor supplied in the same call is registered
    with it, nothing is undone, and what other keys had registered stays. *)
Theorem registerDependencies_ignores_boundary (resolvers : Js.Obj nat) (s : State)
    (k : string) (r : nat) (p : Producer) (target : string) :
  NoDup (Js.keys resolvers) →
  (∀ k r, (k, r) ∈ resolvers → r < length (objects s)) →
  (k, r) ∈ resolvers →
  resolve (deref s r) = Some p →
  target ∈ uses p →
  target ∈ UsersModuleDependencies →
  k ∉ UsersModuleDependencies →
  registration (registerDependencies resolvers s) k = Some (deref s r) ∧
  (∀ k' r', (k', r') ∈ resolvers →
     registration (registerDependencies resolvers s) k' = Some (deref s r')) ∧
  (∀ k0, k0 ∉ Js.keys resolvers →
     Js.get (registrations (registerDependencies resolvers s)) k0
     = Js.get (registrations s) k0).
Proof.
  intros Hnd Hvalid Hin _ _ _ _. split_and!.
  - by apply registerDependencies_registration.
  - intros k' r' Hin'. by apply registerDependencies_registration.
  - intros k0 Hk0. by apply registerDependencies_other.
Qed.

Lemma orders_literal_NoDup : NoDup (Js.keys orders_literal.1).
Proof. apply (bool_decide_unpack (NoDup (Js.keys orders_literal.1))). vm_compute. exact I. Defined.

Lemma orders_literal_valid :
  ∀ k r, (k, r) ∈ orders_literal.1 → r < length (objects orders_literal.2).
Proof.
  intros k r Hin. vm_compute in Hin. vm_compute.
  repeat (apply elem_of_cons in Hin as [[= -> ->]|Hin]); [lia..|].
  by apply elem_of_nil in Hin.
Defined.

Lemma registerDependencies_ignores_boundary_witness :
  NoDup (Js.keys orders_literal.1) ∧
  (∀ k r, (k, r) ∈ orders_literal.1 → r < length (objects orders_literal.2)) ∧
  ("ordersService", 14) ∈ orders_literal.1 ∧
  resolve (deref orders_literal.2 14) = Some OrdersService ∧
  "usersRepository" ∈ uses OrdersService ∧
  "usersRepository" ∈ UsersModuleDependencies ∧
  ("ordersService" ∉ UsersModuleDependencies) ∧
  registration (registerDependencies orders_literal.1 orders_literal.2) "ordersService"
  = Some (deref orders_literal.2 14) ∧
  (∀ k' r', (k', r') ∈ orders_literal.1 →
     registration (registerDependencies orders_literal.1 orders_literal.2) k'
     = Some (deref orders_literal.2 r')) ∧
  (∀ k0, k0 ∉ Js.keys orders_literal.1 →
     Js.get (registrations (registerDependencies orders_literal.1 orders_literal.2)) k0
     = Js.get (registrations orders_literal.2) k0).
Proof.
  assert (("ordersService", 14) ∈ orders_literal.1) as Hin
    by (vm_compute; apply list_elem_of_here).
  assert (resolve (deref orders_literal.2 14) = Some OrdersService) as Hp
    by (vm_compute; reflexivity).
  assert ("usersRepository" ∈ uses OrdersService) as Huses
    by (vm_compute; apply list_elem_of_here).
  assert ("usersRepository" ∈ UsersModuleDependencies) as Hown
    by (vm_compute; do 2 apply list_elem_of_further; apply list_elem_of_here).
  assert ("ordersService" ∉ UsersModuleDependencies) as Hother.
  { apply (bool_decide_unpack ("ordersService" ∉ UsersModuleDependencies)).
    vm_compute. exact I. }
  split; [exact orders_literal_NoDup|]. split; [exact orders_literal_valid|].
  split; [exact Hin|]. split; [exact Hp|]. split; [exact Huses|].
  split; [exact Hown|]. split; [exact Hother|].
  exact (registerDependencies_ignores_boundary orders_literal.1 orders_literal.2
           "ordersService" 14 OrdersService "usersRepository"
           orders_literal_NoDup orders_literal_valid Hin Hp Huses Hown Hother).
Defined.

(** ** The helpers of diCommon.ts *)

(** C8, as stated, fails: a class that declares a lifetime and tags of its
    own under [RESOLVER] keeps them through the helpers, since awilix merges
    them after the options the helpers pass.  Its resolver is TRANSIENT and
    carries no "controller" tag, and registered through [asSingletonClass] it
    is constructed anew at every resolution. *)
Lemma inline_options_override_helpers :
  lifetime (asSingletonClass SelfDescribed None) = Some TRANSIENT ∧
  lifetime (asControllerClass SelfDescribed None) = Some TRANSIENT ∧
  lifetime (asSingletonFunction SelfDescribed None) = Some TRANSIENT ∧
  tags (asControllerClass SelfDescribed None) = Some [] ∧
  ¬ tagged "controller" (asControllerClass SelfDescribed None) ∧
  fst (Awilix.resolve "selfDescribed" with_self_described) = Ok 0 ∧
  fst (Awilix.resolve "selfDescribed"
         (snd (Awilix.resolve "selfDescribed" with_self_described))) = Ok 1 ∧
  ¬ (∀ (T : Constructor) (opts : option BuildResolverOptions),
       lifetime (asSingletonClass T opts) = Some SINGLETON ∧
       tagged "controller" (asControllerClass T opts)).
Proof.
  split_and!; try (by vm_compute).
  - intros (ts & Hts & Hin). vm_compute in Hts. injection Hts as <-.
    by apply elem_of_nil in Hin.
  - intros H. by destruct (H SelfDescribed None) as [[=] _].
Qed.

(** C8, amended.  Whatever the constructor or function and whatever [opts],
    also an [opts] that names another lifetime, the resolver that
    [asSingletonClass], [asControllerClass] or [asSingletonFunction] returns
    has the lifetime that the class or function declares on itself under
    [RESOLVER], if it declares one, and SINGLETON otherwise, and that is the
    lifetime the container acts on; the resolver of [asControllerClass]
    carries the tags the class declares on itself, if it declares any, and
    exactly the tag "controller" otherwise, whatever tags [opts] names.  In
    particular a class or function without a [RESOLVER] property always
    gives a SINGLETON resolver, and [asControllerClass] then always attaches
    the tag. *)
Theorem helpers_force_singleton (T : Constructor) (fn : FunctionReturning)
    (P : Producer) (opts : option BuildResolverOptions) :
  lifetime (asSingletonClass T opts) = Some (default SINGLETON (inline_lifetime T)) ∧
  lifetime (asControllerClass T opts) = Some (default SINGLETON (inline_lifetime T)) ∧
  lifetime (asSingletonFunction fn opts) = Some (default SINGLETON (inline_lifetime fn)) ∧
  tags (asControllerClass T opts) = Some (default [CONTROLLER_TAG] (inline_tags T)) ∧
  lifetime (asSingletonClass P opts) = Some SINGLETON ∧
  lifetime (asControllerClass P opts) = Some SINGLETON ∧
  lifetime (asSingletonFunction P opts) = Some SINGLETON ∧
  default TRANSIENT (lifetime (asSingletonClass P opts)) = SINGLETON ∧
  default TRANSIENT (lifetime (asControllerClass P opts)) = SINGLETON ∧
  default TRANSIENT (lifetime (asSingletonFunction P opts)) = SINGLETON ∧
  tags (asControllerClass P opts) = Some [CONTROLLER_TAG] ∧
  tagged "controller" (asControllerClass P opts).
Proof.
  unfold inline_lifetime, inline_tags.
  split_and!; try reflexivity.
  - destruct T as [p [[[l|] ?]|]]; reflexivity.
  - destruct T as [p [[[l|] ?]|]]; reflexivity.
  - destruct fn as [p [[[l|] ?]|]]; reflexivity.
  - destruct T as [p [[? [t|]]|]]; reflexivity.
  - exists [CONTROLLER_TAG]. split; [reflexivity | apply list_elem_of_here].
Qed.

Example helpers_override_opts :
  let opts := Some {| opt_lifetime := Some TRANSIENT; opt_tags := Some ["job"];
                      opt_dispose := None; opt_enabled := None |} in
  lifetime (asSingletonClass UsersService opts) = Some SINGLETON ∧
  tags (asSingletonClass UsersService opts) = Some ["job"] ∧
  lifetime (asControllerClass UsersController_doc opts) = Some SINGLETON ∧
  tags (asControllerClass UsersController_doc opts) = Some ["controller"].
Proof. by vm_compute. Qed.

(** ** The error handler *)

(** C10, at the failing inputs.  An internal error whose [details] refer back
    to themselves, and a thrown BigInt, are not public errors, yet the
    handler sends them no reply at all: [JSON.stringify] throws while the log
    object is built, before anything is logged and before the reply. *)
Lemma errorHandler_throws_before_replying :
  sample_public (JobFailed ["jobId"; "self"]) = None ∧
  resolveLogObject sample_typeof sample_is_null sample_message sample_internal
    sample_stringify_details sample_stringify (JobFailed ["jobId"; "self"]) = None ∧
  errorHandler sample_typeof sample_is_null sample_message sample_public sample_internal
    sample_stringify_details sample_stringify (JobFailed ["jobId"; "self"]) fresh_exchange
  = None ∧
  sample_public ThrownBigInt = None ∧
  errorHandler sample_typeof sample_is_null sample_message sample_public sample_internal
    sample_stringify_details sample_stringify ThrownBigInt fresh_exchange
  = None.
Proof. by vm_compute. Qed.



(** ** Uses of the container *)

Lemma resolve_into_grows names :
  ∀ acc s r s', Awilix.resolve_into names acc s = (r, s') → grows [] s s'.
Proof.
  induction names as [|n ns IH]; simpl; intros acc s r s' H.
  - injection H as <- <-. apply grows_refl.
  - destruct (Awilix.resolve n s) as [[v|e] s1] eqn:E.
    + eapply grows_trans; [by eapply resolve_grows | by eapply IH].
    + injection H as <- <-. by eapply resolve_grows.
Qed.

Lemma use_grows u s : grows [] s (use s u).
Proof.
  destruct u as [n|wanted]; simpl.
  - destruct (Awilix.resolve n s) as [r s'] eqn:E. by eapply resolve_grows.
  - unfold Awilix.getWithTags.
    destruct (Awilix.resolve_into _ [] s) as [r s'] eqn:E. by eapply resolve_into_grows.
Qed.

Lemma uses_grows later : ∀ s, grows [] s (foldl use s later).
Proof.
  induction later as [|u later IH]; simpl; intros s; [apply grows_refl|].
  eapply grows_trans; [apply use_grows | apply IH].
Qed.

Lemma grows_registration st s s' name : grows st s s' → registration s' name = registration s name.
Proof.
  intros Hg. pose proof Hg as (_ & Hr & _). unfold registration. rewrite Hr.
  destruct (Js.get (registrations s) name); [|done]. simpl. by rewrite (grows_deref _ _ _ _ Hg).
Qed.

(** ** Teardown *)

Lemma dispose_calls_none s :
  Forall (λ o, dispose o = None) (objects s) → Awilix.dispose_calls s = [].
Proof.
  intros Hall. unfold Awilix.dispose_calls, Js.entries.
  induction (cache s) as [|[n e] c IH]; [done|]. simpl.
  unfold Awilix.dispose_entry at 1. simpl.
  assert (dispose (deref s (entry_resolver e)) = None) as ->; [|done].
  unfold deref. destruct (objects s !! entry_resolver e) as [o|] eqn:Ho; [|done].
  simpl. by eapply (Forall_lookup_1 _ _ _ _ Hall).
Qed.

(** C7, at the code: the resolver registered under [database] is a
    singleton, but it has no disposer. *)
Lemma database_has_no_disposer :
  ¬ ∃ r, Js.get (resolveCoreDependencies app_valid) "database" = Some r ∧
         lifetime r = Some SINGLETON ∧
         is_Some (dispose r).
Proof.
  intros (r & Hget & _ & [d Hd]). vm_compute in Hget. injection Hget as <-.
  discriminate Hd.
Qed.

(** C7, what the code does instead of closing the pool.  The [database]
    dependency is registered as a singleton descriptor without a disposer,
    and, the two imported classes declaring no options of their own, so is
    every other descriptor of the application: whatever has been resolved
    since [startApp] assembled the container, closing the application calls
    no disposer, for the database or for anything else, and reports no
    failure; the connection pool stays open. *)
Theorem database_is_singleton_without_disposer
    (UsersController UsersRepository : Producer) (app : FastifyInstance)
    (later : list Use) :
  let s := foldl use (assemble UsersController UsersRepository app initial) later in
  ∃ r, Js.get (resolveCoreDependencies app) "database" = Some r ∧
       registration s "database" = Some r ∧
       lifetime r = Some SINGLETON ∧
       dispose r = None ∧
       Awilix.dispose_calls s = [] ∧
       fst (close s) = None ∧
       disposed (snd (close s)) = [].
Proof.
  intros s. pose proof (uses_grows later (assemble UsersController UsersRepository app initial)) as Hg.
  fold s in Hg. pose proof Hg as (Ho & _ & Hd & _).
  assert (Awilix.dispose_calls s = []) as Hnone.
  { apply dispose_calls_none. rewrite Ho. vm_compute. repeat constructor. }
  eexists. split_and!; [reflexivity | | reflexivity | reflexivity | exact Hnone | |].
  - rewrite (grows_registration _ _ _ _ Hg). by vm_compute.
  - unfold close, Awilix.dispose. by rewrite Hnone.
  - unfold close, Awilix.dispose. simpl. by rewrite Hnone, Hd.
Qed.

(** ** Collecting by tag *)

Lemma has_tags_tagged tag r : Awilix.has_tags [tag] r = true ↔ tagged tag r.
Proof.
  unfold Awilix.has_tags, tagged. simpl. destruct (tags r) as [ts|].
  - rewrite andb_true_r. split.
    + intros H. exists ts. split; [done|]. by apply bool_decide_eq_true in H.
    + intros (ts' & [= <-] & Hin). by apply bool_decide_eq_true.
  - split; [done | by intros (ts' & ? & _)].
Qed.

Lemma not_disabled_spec r : Awilix.not_disabled r = true ↔ enabled r ≠ Some false.
Proof. unfold Awilix.not_disabled. by destruct (enabled r) as [[]|]. Qed.

Lemma dependenciesWithTags_spec s tag name :
  NoDup (Js.keys (registrations s)) →
  name ∈ Awilix.dependenciesWithTags s [tag] ↔
  ∃ r, registration s name = Some r ∧ tagged tag r ∧ enabled r ≠ Some false.
Proof.
  intros Hnd. unfold Awilix.dependenciesWithTags, Js.keys, Js.entries, registration.
  rewrite list_elem_of_fmap. split.
  - intros ([k ref] & -> & Hin). apply list_elem_of_filter in Hin as [Htag Hin].
    simpl in *. rewrite (elem_get_Some _ _ _ Hnd Hin). simpl.
    apply andb_true_iff in Htag as [Hen Htag].
    eexists. split; [done|]. split; [by apply has_tags_tagged | by apply not_disabled_spec].
  - intros (r & Hreg & Htag & Hen).
    destruct (Js.get (registrations s) name) as [ref|] eqn:Hget; [|done].
    injection Hreg as <-. exists (name, ref). split; [done|].
    apply list_elem_of_filter. split; [|by apply get_Some_elem].
    simpl. apply andb_true_iff. split; [by apply not_disabled_spec | by apply has_tags_tagged].
Qed.

Lemma resolve_into_keys names :
  ∀ acc s m s', Awilix.resolve_into names acc s = (Ok m, s') →
  ∀ k, k ∈ Js.keys m ↔ k ∈ Js.keys acc ∨ k ∈ names.
Proof.
  induction names as [|n ns IH]; simpl; intros acc s m s' H k.
  - injection H as <- <-. split; [by left | intros [?|Hk]; [done | by apply elem_of_nil in Hk]].
  - destruct (Awilix.resolve n s) as [[v|e] s1]; [|done].
    rewrite (IH _ _ _ _ H), elem_keys_put, elem_of_cons. tauto.
Qed.

Lemma resolve_into_values names :
  ∀ acc s m s', Awilix.resolve_into names acc s = (Ok m, s') →
  ∀ name v, Js.get m name = Some v →
    (Js.get acc name = Some v ∧ name ∉ names) ∨
    (name ∈ names ∧ ∃ before after,
       grows [] s before ∧ Awilix.resolve name before = (Ok v, after) ∧ grows [] after s').
Proof.
  induction names as [|n ns IH]; simpl; intros acc s m s' H name v Hget.
  - injection H as <- <-. left. split; [done | apply not_elem_of_nil].
  - destruct (Awilix.resolve n s) as [[v0|e] s1] eqn:E; [|done].
    destruct (IH _ _ _ _ H _ _ Hget) as [[Hacc Hn]|[Hin (before & after & Hg1 & Hres & Hg2)]].
    + destruct (decide (n = name)) as [->|Hne].
      * rewrite get_put_eq in Hacc. injection Hacc as ->. right.
        split; [apply list_elem_of_here|]. exists s, s1. split_and!; [apply grows_refl | done |].
        by eapply resolve_into_grows.
      * rewrite get_put_ne in Hacc by done. left. split; [done|].
        apply not_elem_of_cons. split; [by intros -> | done].
    + right. split; [by apply list_elem_of_further|]. exists before, after.
      split_and!; [|done..]. eapply grows_trans; [by eapply resolve_grows | done].
Qed.

Lemma resolve_into_error names :
  ∀ acc s e s', Awilix.resolve_into names acc s = (Err e, s') →
  ∃ name before, name ∈ names ∧ grows [] s before ∧ Awilix.resolve name before = (Err e, s').
Proof.
  induction names as [|n ns IH]; simpl; intros acc s e s' H; [done|].
  destruct (Awilix.resolve n s) as [[v0|e0] s1] eqn:E.
  - destruct (IH _ _ _ _ H) as (name & before & Hin & Hg & Hres).
    exists name, before. split_and!; [by apply list_elem_of_further | | done].
    eapply grows_trans; [by eapply resolve_grows | done].
  - injection H as <- <-. exists n, s. split_and!; [apply list_elem_of_here | apply grows_refl | done].
Qed.

Lemma get_Permutation {V} (o1 o2 : Js.Obj V) k :
  NoDup (Js.keys o1) → o1 ≡ₚ o2 → Js.get o1 k = Js.get o2 k.
Proof.
  intros Hnd Hp. assert (NoDup (Js.keys o2)) as Hnd2.
  { unfold Js.keys in *. by rewrite <- Hp. }
  destruct (Js.get o1 k) as [v|] eqn:E1.
  - symmetry. apply elem_get_Some; [done|]. rewrite <- Hp. by apply get_Some_elem.
  - symmetry. apply get_None. apply get_None in E1. unfold Js.keys in *. by rewrite <- Hp.
Qed.

Lemma getWithTags_keys tag s m s' :
  NoDup (Js.keys (registrations s)) →
  Awilix.getWithTags [tag] s = (Ok m, s') →
  ∀ name, name ∈ Js.keys m ↔
          ∃ r, registration s name = Some r ∧ tagged tag r ∧ enabled r ≠ Some false.
Proof.
  intros Hnd H name. unfold Awilix.getWithTags in H.
  rewrite (resolve_into_keys _ _ _ _ _ H), <- (dependenciesWithTags_spec _ _ _ Hnd).
  split; [intros [Hk|?]; [by apply elem_of_nil in Hk | done] | by right].
Qed.

(** C6, as stated, fails: a controller registered with [enabled: false]
    carries the tag and resolves, but [getWithTags] leaves it out. *)
Lemma disabled_controller_is_left_out :
  registration with_disabled_controller "reportsController"
  = Some (asControllerClass ReportsController (Some switched_off)) ∧
  tagged CONTROLLER_TAG (asControllerClass ReportsController (Some switched_off)) ∧
  fst (Awilix.resolve "reportsController" with_disabled_controller) = Ok 4 ∧
  fst (Awilix.getWithTags [CONTROLLER_TAG] with_disabled_controller)
  = Ok [("usersController", 5)] ∧
  ¬ (∀ m s', Awilix.getWithTags [CONTROLLER_TAG] with_disabled_controller = (Ok m, s') →
       ∀ name r, registration with_disabled_controller name = Some r →
                 tagged CONTROLLER_TAG r → name ∈ Js.keys m).
Proof.
  assert (tagged CONTROLLER_TAG (asControllerClass ReportsController (Some switched_off)))
    as Htag.
  { exists [CONTROLLER_TAG]. split; [reflexivity | apply list_elem_of_here]. }
  assert (registration with_disabled_controller "reportsController"
          = Some (asControllerClass ReportsController (Some switched_off))) as Hreg
    by (vm_compute; reflexivity).
  split; [exact Hreg|]. split; [exact Htag|].
  split; [vm_compute; reflexivity|]. split; [vm_compute; reflexivity|].
  intros H.
  assert ("reportsController" ∈ Js.keys [("usersController", 5)]) as Hin.
  { eapply (H _ (snd (Awilix.getWithTags [CONTROLLER_TAG] with_disabled_controller)));
      [vm_compute; reflexivity | exact Hreg | exact Htag]. }
  revert Hin. apply (bool_decide_unpack ("reportsController" ∉ ["usersController"])).
  vm_compute. exact I.
Qed.

(** C6, amended.  [getWithTags] over one tag either returns a mapping or
    passes on the error of a tagged descriptor that failed to resolve.  The
    mapping it returns has a key for every registered descriptor that carries
    the tag and is not switched off with [enabled: false], and for nothing
    else, so no untagged and no switched-off descriptor appears in it; the
    value under a name is the instance that resolving the name returned, and
    for a singleton descriptor, as every controller is, it is the instance
    any later resolution returns; and a container that has the same
    descriptors registered in another order yields the same names. *)
Theorem getWithTags_exact (tag : string) (s : State) :
  NoDup (Js.keys (registrations s)) →
  match Awilix.getWithTags [tag] s with
  | (Ok m, s') =>
      (∀ name, name ∈ Js.keys m ↔
               ∃ r, registration s name = Some r ∧ tagged tag r ∧ enabled r ≠ Some false) ∧
      (∀ name r, registration s name = Some r →
                 ¬ tagged tag r ∨ enabled r = Some false → name ∉ Js.keys m) ∧
      (∀ name v, Js.get m name = Some v →
         ∃ before after,
           grows [] s before ∧ Awilix.resolve name before = (Ok v, after) ∧
           grows [] after s') ∧
      (∀ name v r, Js.get m name = Some v → registration s name = Some r →
         lifetime r = Some SINGLETON → Awilix.resolve name s' = (Ok v, s')) ∧
      (∀ s2 m2 s2', objects s2 = objects s → registrations s2 ≡ₚ registrations s →
         Awilix.getWithTags [tag] s2 = (Ok m2, s2') →
         ∀ name, name ∈ Js.keys m ↔ name ∈ Js.keys m2)
  | (Err e, s') =>
      ∃ name r before,
        registration s name = Some r ∧ tagged tag r ∧ enabled r ≠ Some false ∧
        grows [] s before ∧ Awilix.resolve name before = (Err e, s')
  end.
Proof.
  intros Hnd. destruct (Awilix.getWithTags [tag] s) as [[m|e] s'] eqn:H.
  - pose proof (getWithTags_keys _ _ _ _ Hnd H) as Hkeys.
    assert (∀ name v, Js.get m name = Some v →
              ∃ before after, grows [] s before ∧
                Awilix.resolve name before = (Ok v, after) ∧ grows [] after s') as Hvals.
    { intros name v Hget. unfold Awilix.getWithTags in H.
      destruct (resolve_into_values _ _ _ _ _ H _ _ Hget) as [[? _]|[_ ?]]; done. }
    split_and!; [exact Hkeys | | exact Hvals | |].
    + intros name r Hreg Hno Hin. apply Hkeys in Hin as (r' & Hreg' & Htag & Hen).
      assert (r' = r) as -> by congruence. by destruct Hno.
    + intros name v r Hget Hreg Hlt.
      destruct (Hvals _ _ Hget) as (before & after & Hg1 & Hres & Hg2).
      rewrite <- (grows_registration _ _ _ name Hg1) in Hreg. unfold registration in Hreg.
      destruct (Js.get (registrations before) name) as [ref|] eqn:Hr; [|done].
      injection Hreg as <-.
      destruct (resolve_holds name before ref v after Hr) as (e & Hheld & <- & _);
        [by rewrite Hlt | done |].
      apply (held_resolve name ref e). by eapply grows_held.
    + intros s2 m2 s2' Ho Hp H2 name.
      assert (NoDup (Js.keys (registrations s2))) as Hnd2.
      { unfold Js.keys in *. by rewrite Hp. }
      rewrite Hkeys, (getWithTags_keys _ _ _ _ Hnd2 H2).
      assert (registration s2 name = registration s name) as ->; [|done].
      unfold registration. rewrite (get_Permutation _ _ name Hnd2 Hp).
      destruct (Js.get (registrations s) name); [|done]. simpl. unfold deref. by rewrite Ho.
  - unfold Awilix.getWithTags in H.
    destruct (resolve_into_error _ _ _ _ _ H) as (name & before & Hin & Hg & Hres).
    apply (dependenciesWithTags_spec _ _ _ Hnd) in Hin as (r & Hreg & Htag & Hen).
    by exists name, r, before.
Qed.

Lemma assembled_NoDup : NoDup (Js.keys (registrations assembled)).
Proof.
  apply (bool_decide_unpack (NoDup (Js.keys (registrations assembled)))).
  vm_compute. exact I.
Defined.

Lemma with_disabled_controller_NoDup :
  NoDup (Js.keys (registrations with_disabled_controller)).
Proof.
  apply (bool_decide_unpack (NoDup (Js.keys (registrations with_disabled_controller)))).
  vm_compute. exact I.
Defined.

Lemma getWithTags_exact_witness :
  NoDup (Js.keys (registrations with_disabled_controller)) ∧
  Awilix.getWithTags [CONTROLLER_TAG] with_disabled_controller
  = (Ok [("usersController", 5)],
     snd (Awilix.getWithTags [CONTROLLER_TAG] with_disabled_controller)) ∧
  match Awilix.getWithTags [CONTROLLER_TAG] with_disabled_controller with
  | (Ok m, s') =>
      (∀ name, name ∈ Js.keys m ↔
               ∃ r, registration with_disabled_controller name = Some r ∧
                    tagged CONTROLLER_TAG r ∧ enabled r ≠ Some false) ∧
      (∀ name r, registration with_disabled_controller name = Some r →
                 ¬ tagged CONTROLLER_TAG r ∨ enabled r = Some false →
                 name ∉ Js.keys m) ∧
      (∀ name v, Js.get m name = Some v →
         ∃ before after,
           grows [] with_disabled_controller before ∧
           Awilix.resolve name before = (Ok v, after) ∧
           grows [] after s') ∧
      (∀ name v r, Js.get m name = Some v →
         registration with_disabled_controller name = Some r →
         lifetime r = Some SINGLETON → Awilix.resolve name s' = (Ok v, s')) ∧
      (∀ s2 m2 s2', objects s2 = objects with_disabled_controller →
         registrations s2 ≡ₚ registrations with_disabled_controller →
         Awilix.getWithTags [CONTROLLER_TAG] s2 = (Ok m2, s2') →
         ∀ name, name ∈ Js.keys m ↔ name ∈ Js.keys m2)
  | (Err e, s') =>
      ∃ name r before,
        registration with_disabled_controller name = Some r ∧
        tagged CONTROLLER_TAG r ∧ enabled r ≠ Some false ∧
        grows [] with_disabled_controller before ∧
        Awilix.resolve name before = (Err e, s')
  end.
Proof.
  split; [exact with_disabled_controller_NoDup|]. split; [by vm_compute|].
  exact (getWithTags_exact CONTROLLER_TAG with_disabled_controller
           with_disabled_controller_NoDup).
Defined.

(** ** Disposal *)

Lemma dispose_calls_sublist s :
  (Awilix.dispose_calls s).*1.*1 `sublist_of` Js.keys (cache s).
Proof.
  unfold Awilix.dispose_calls, Js.entries, Js.keys.
  induction (cache s) as [|[n e] c IH]; simpl; [done|].
  unfold Awilix.dispose_entry at 1. simpl.
  destruct (dispose (deref s (entry_resolver e))); simpl.
  - by apply sublist_skip.
  - by apply sublist_cons.
Qed.

Lemma dispose_calls_complete s name e d :
  (name, e) ∈ cache s → dispose (deref s (entry_resolver e)) = Some d →
  (name, entry_value e, d (entry_value e)) ∈ Awilix.dispose_calls s.
Proof.
  intros Hin Hd. unfold Awilix.dispose_calls, Js.entries. apply list_elem_of_omap.
  exists (name, e). split; [done|]. unfold Awilix.dispose_entry. simpl. by rewrite Hd.
Qed.

Lemma first_failure_None (done : list (string * Value * bool)) :
  head (filter (λ c, c.2 = true) done).*1.*1 = None ↔ ∀ c, c ∈ done → c.2 = false.
Proof.
  induction done as [|[[n v] b] done IH]; simpl.
  - split; [intros _ c Hc; by apply elem_of_nil in Hc | done].
  - destruct b.
    + rewrite filter_cons_True by done. simpl. split; [done|].
      intros H. specialize (H (n, v, true) (list_elem_of_here _ _)). done.
    + rewrite filter_cons_False by done. rewrite IH. split.
      * intros H c Hc. apply elem_of_cons in Hc as [->|Hc]; [done | by apply H].
      * intros H c Hc. apply H. by apply list_elem_of_further.
Qed.

Lemma first_failure_Some (done : list (string * Value * bool)) name :
  head (filter (λ c, c.2 = true) done).*1.*1 = Some name →
  ∃ v, (name, v, true) ∈ done.
Proof.
  induction done as [|[[n v] b] done IH]; simpl; [done|].
  destruct b.
  - rewrite filter_cons_True by done. simpl. intros [= ->]. exists v. apply list_elem_of_here.
  - rewrite filter_cons_False by done. intros H. destruct (IH H) as [v' Hv'].
    exists v'. by apply list_elem_of_further.
Qed.

(** C5, as stated, fails: [X] is constructed before [Y], and the disposers
    are called for [X] first and [Y] second, not in the reverse order; and
    when both disposers fail, both are called but the teardown reports the
    one failure of [X], not the two. *)
Lemma dispose_is_not_reversed :
  Js.keys (cache (Y_resolved false)) = ["X"; "Y"] ∧
  (disposed (snd (Awilix.dispose (Y_resolved false)))).*1 = ["X"; "Y"] ∧
  (disposed (snd (Awilix.dispose (Y_resolved false)))).*1
  ≠ reverse (Js.keys (cache (Y_resolved false))) ∧
  (Awilix.dispose_calls (Y_resolved true)).*2 = [true; true] ∧
  fst (Awilix.dispose (Y_resolved true)) = Some "X".
Proof. split_and!; by vm_compute. Qed.

(** C5, amended.  [container.dispose], which closing the application runs,
    calls the disposer of every cached instance whose resolver has one, in
    the order of the cache, to whose end every later construction is added,
    so in the order of construction and not in the reverse order; a failing disposer keeps no
    other from being called, and the calls are all there is in the log
    afterwards; the teardown succeeds exactly when no disposer failed, and
    otherwise reports a single failure among those that occurred, not an
    aggregate; the cache is empty afterwards. *)
Theorem dispose_follows_construction_order (s : State) :
  (∀ u, ∃ new, cache (use s u) = cache s ++ new) ∧
  (Awilix.dispose_calls s).*1.*1 `sublist_of` Js.keys (cache s) ∧
  (∀ name e d, (name, e) ∈ cache s → dispose (deref s (entry_resolver e)) = Some d →
     (name, entry_value e, d (entry_value e)) ∈ Awilix.dispose_calls s) ∧
  disposed (snd (Awilix.dispose s)) = disposed s ++ (Awilix.dispose_calls s).*1 ∧
  cache (snd (Awilix.dispose s)) = [] ∧
  (fst (Awilix.dispose s) = None ↔ ∀ c, c ∈ Awilix.dispose_calls s → c.2 = false) ∧
  (∀ name, fst (Awilix.dispose s) = Some name →
     ∃ v, (name, v, true) ∈ Awilix.dispose_calls s).
Proof.
  split_and!.
  - intros u. destruct (use_grows u s) as (_ & _ & _ & (new & Hc & _) & _). by exists new.
  - apply dispose_calls_sublist.
  - apply dispose_calls_complete.
  - done.
  - done.
  - unfold Awilix.dispose. simpl. apply first_failure_None.
  - intros name. unfold Awilix.dispose. simpl. apply first_failure_Some.
Qed.

(** * Further properties of the code *)

(** ** GET /users/:userId *)

Section UsersFlowFacts.

Context {Db Num DriverError : Type}.
Variable selectUser : Num → Db → DriverError + option UserRow.
Variable parseInt : string → Num.
Variable isPublicNonRecoverableError :
  ServiceError DriverError → option (PublicNonRecoverableError (list string)).
Variable isInternalError_public : PublicNonRecoverableError (list string) → bool.
Variable isInternalError_rejected : DriverError → option (InternalError (list string)).
Variable driver_typeof : DriverError → string.
Variable driver_is_null : DriverError → bool.
Variable driver_message : DriverError → string.
Variable JSON_stringify_details : list string → option string.
Variable JSON_stringify : ServiceError DriverError → option (option string).

Let route := GET_user selectUser parseInt isPublicNonRecoverableError
               isInternalError_public isInternalError_rejected driver_typeof
               driver_is_null driver_message JSON_stringify_details JSON_stringify.

Let logged := log_object isInternalError_public isInternalError_rejected driver_typeof
                driver_is_null driver_message JSON_stringify_details JSON_stringify.

(** X1. The route answers with the handler's own response exactly when the
    repository's query finds a row for the parsed id; the status is then 200
    and the body has the row's [first_name] and [last_name] as [firstName]
    and [lastName], and nothing else of the row. *)
Theorem GET_user_served (userId : string) (db : Db) (h : Http (list string))
    (status : Z) (body : User) :
  route userId db h = Served status body ↔
  status = 200%Z ∧
  ∃ row, selectUser (parseInt userId) db = inr (Some row) ∧
         body = {| firstName := first_name row; lastName := last_name row |}.
Proof.
  unfold route, GET_user, UsersController_getUser, UsersService_getUser,
    UsersRepository_getUser.
  destruct (selectUser (parseInt userId) db) as [reason|[row|]]; simpl.
  - split; [by destruct (handle _ _ _ _ _ _ _ _ _ _) | by intros (_ & row & ? & _)].
  - split.
    + intros [= <- <-]. split; [done|]. by exists row.
    + intros (-> & row' & [= <-] & ->). done.
  - split; [by destruct (handle _ _ _ _ _ _ _ _ _ _) | by intros (_ & row & ? & _)].
Qed.

(** X2. When the query finds no row, and the guard recognises the error the
    service constructs, the reply is status 404 with the payload "User not
    found" / "USER_NOT_FOUND" without details, whatever the id and whatever
    the exchange held before. *)
Theorem GET_user_not_found (userId : string) (db : Db) (h : Http (list string)) :
  (∀ p, isPublicNonRecoverableError (Public p) = Some p) →
  selectUser (parseInt userId) db = inr None →
  ∃ h', route userId db h = Handled h' ∧
        reply_status h' = Some 404%Z ∧
        reply_sent h' = Some {| payload_message := "User not found";
                                payload_errorCode := "USER_NOT_FOUND";
                                payload_details := None |}.
Proof.
  intros Hguard Hsel.
  unfold route, GET_user, UsersController_getUser, UsersService_getUser,
    UsersRepository_getUser.
  rewrite Hsel. simpl.
  unfold handle, errorHandler, resolveLogObject, resolveResponseObject, isObject. simpl.
  rewrite Hguard. destruct (isInternalError_public _); simpl; eexists; by split.
Qed.

(** X3. When the database rejects the query, and the guard does not take a
    driver's rejection for a public error: if the log object of the
    rejection can be built, the reply is status 500 with the fixed payload,
    the same for every rejection, and the exchange's request log gets
    exactly that one more entry; if it cannot, the error handler is thrown
    out of before it has logged or replied. *)
Theorem GET_user_rejected (userId : string) (db : Db) (h : Http (list string))
    (reason : DriverError) :
  (∀ r, isPublicNonRecoverableError (Rejected r) = None) →
  selectUser (parseInt userId) db = inl reason →
  match logged (Rejected reason) with
  | Some entry =>
      ∃ h', route userId db h = Handled h' ∧
            reply_status h' = Some 500%Z ∧
            reply_sent h' = Some {| payload_message := "Internal server error";
                                    payload_errorCode := "INTERNAL_SERVER_ERROR";
                                    payload_details := None |} ∧
            request_log h' = request_log h ++ [entry]
  | None => route userId db h = HandlerThrew
  end.
Proof.
  intros Hguard Hsel.
  unfold route, logged, GET_user, UsersController_getUser, UsersService_getUser,
    UsersRepository_getUser.
  rewrite Hsel. simpl. unfold handle, errorHandler, log_object.
  destruct (resolveLogObject _ _ _ _ _ _ (Rejected reason)) as [entry|]; [|done].
  eexists. split; [reflexivity|].
  unfold resolveResponseObject. simpl. by rewrite Hguard.
Qed.

End UsersFlowFacts.

Lemma GET_user_served_witness :
  store_GET_user "1" one_user fresh_exchange
  = Served 200 {| firstName := "Test"; lastName := Some "Test2" |}.
Proof.
  apply (proj2 (GET_user_served store_selectUser store_parseInt store_guard
                  store_internal_public store_internal_rejected store_typeof
                  store_is_null id store_stringify_details store_stringify
                  "1" one_user fresh_exchange 200%Z
                  {| firstName := "Test"; lastName := Some "Test2" |})).
  split; [reflexivity|]. eexists. split; reflexivity.
Defined.

Lemma GET_user_not_found_witness :
  (∀ p, store_guard (Public p) = Some p) ∧
  store_selectUser (store_parseInt "2") one_user = inr None ∧
  ∃ h', store_GET_user "2" one_user fresh_exchange = Handled h' ∧
        reply_status h' = Some 404%Z ∧
        reply_sent h' = Some {| payload_message := "User not found";
                                payload_errorCode := "USER_NOT_FOUND";
                                payload_details := None |}.
Proof.
  split; [reflexivity|]. split; [reflexivity|].
  exact (GET_user_not_found store_selectUser store_parseInt store_guard
           store_internal_public store_internal_rejected store_typeof store_is_null id
           store_stringify_details store_stringify
           "2" one_user fresh_exchange (λ p, eq_refl) eq_refl).
Defined.

Lemma GET_user_rejected_witness :
  (∀ r, store_guard (Rejected r) = None) ∧
  store_selectUser (store_parseInt "abc") one_user
  = inl "invalid input syntax for type integer" ∧
  ∃ h', store_GET_user "abc" one_user fresh_exchange = Handled h' ∧
        reply_status h' = Some 500%Z ∧
        reply_sent h' = Some {| payload_message := "Internal server error";
                                payload_errorCode := "INTERNAL_SERVER_ERROR";
                                payload_details := None |} ∧
        request_log h'
        = request_log fresh_exchange
          ++ [PlainLog (Some "invalid input syntax for type integer")].
Proof.
  split; [reflexivity|]. split; [reflexivity|].
  exact (GET_user_rejected store_selectUser store_parseInt store_guard
           store_internal_public store_internal_rejected store_typeof store_is_null id
           store_stringify_details store_stringify
           "abc" one_user fresh_exchange "invalid input syntax for type integer"
           (λ r, eq_refl) eq_refl).
Defined.

(** ** cleanDatabase *)

Section DbCleanerFacts.

Context {Db DriverError Row : Type}.
Variable deleteFrom : string → Db → DriverError + Db.

(** The rows of a table, as far as the statements below speak of them. *)
Variable rows : string → Db → list Row.

Lemma cleanDatabase_app (ts1 ts2 : list string) (db : Db) :
  cleanDatabase deleteFrom (ts1 ++ ts2) db
  = match cleanDatabase deleteFrom ts1 db with
    | (None, db1) => cleanDatabase deleteFrom ts2 db1
    | failed => failed
    end.
Proof.
  revert db. induction ts1 as [|t ts1 IH]; intros db; simpl; [done|].
  destruct (deleteFrom t db) as [reason|db']; [done | apply IH].
Qed.

(** X4. [cleanDatabase] fails exactly when the delete of some listed table is
    rejected after the deletes of all tables listed before it went through;
    it then fails with that rejection, leaves the database as those earlier
    deletes left it, and never deletes from the tables listed after. *)
Theorem cleanDatabase_fails_at_first_rejection (tables : list string) (db db' : Db)
    (reason : DriverError) :
  cleanDatabase deleteFrom tables db = (Some reason, db') ↔
  ∃ before table after,
    tables = before ++ table :: after ∧
    cleanDatabase deleteFrom before db = (None, db') ∧
    deleteFrom table db' = inl reason.
Proof.
  split.
  - revert db. induction tables as [|t ts IH]; intros db; simpl; [done|].
    destruct (deleteFrom t db) as [reason'|db1] eqn:Hdel.
    + intros [= <- <-]. by exists [], t, ts.
    + intros H. destruct (IH _ H) as (before & table & after & -> & Hbefore & Hrej).
      exists (t :: before), table, after. simpl. by rewrite Hdel.
  - intros (before & table & after & -> & Hbefore & Hrej).
    rewrite cleanDatabase_app, Hbefore. simpl. by rewrite Hrej.
Qed.

Lemma cleanDatabase_rows (tables : list string) (db db' : Db) :
  (∀ t d d', deleteFrom t d = inr d' → rows t d' = []) →
  (∀ t t' d d', deleteFrom t d = inr d' → t' ≠ t → rows t' d' = rows t' d) →
  cleanDatabase deleteFrom tables db = (None, db') →
  (∀ t, t ∈ tables → rows t db' = []) ∧
  (∀ t, t ∉ tables → rows t db' = rows t db).
Proof.
  intros Hempty Hframe. revert db. induction tables as [|t ts IH]; intros db; simpl.
  - intros [= <-]. split; [intros t Ht; by apply elem_of_nil in Ht | done].
  - destruct (deleteFrom t db) as [reason|db1] eqn:Hdel; [done|].
    intros H. destruct (IH _ H) as [Hin Hout]. split.
    + intros t' Ht'. destruct (decide (t' ∈ ts)) as [Hts|Hts]; [by apply Hin|].
      apply elem_of_cons in Ht' as [->|?]; [|done].
      rewrite (Hout _ Hts). by eapply Hempty.
    + intros t' Ht'. apply not_elem_of_cons in Ht' as [Hne Hts].
      rewrite (Hout _ Hts). by eapply Hframe.
Qed.

(** X5. Where a delete that goes through leaves its table without rows and
    the rows of every other table as they were, a [cleanDatabase] that goes
    through leaves every listed table without rows, however often and in
    whatever order the tables are listed, and every table that is not listed
    with the rows it had. *)
Theorem cleanDatabase_empties_listed (tables : list string) (db db' : Db) :
  (∀ t d d', deleteFrom t d = inr d' → rows t d' = []) →
  (∀ t t' d d', deleteFrom t d = inr d' → t' ≠ t → rows t' d' = rows t' d) →
  cleanDatabase deleteFrom tables db = (None, db') →
  (∀ t, t ∈ tables → rows t db' = []) ∧
  (∀ t, t ∉ tables → rows t db' = rows t db).
Proof. apply cleanDatabase_rows. Qed.

End DbCleanerFacts.

Lemma store_delete_empties t (d d' : Js.Obj (list UserRow)) :
  store_deleteFrom t d = inr d' → store_rows t d' = [].
Proof.
  unfold store_deleteFrom, store_rows. destruct (Js.get d t); [|done].
  intros [= <-]. by rewrite get_put_eq.
Defined.

Lemma store_delete_frame t t' (d d' : Js.Obj (list UserRow)) :
  store_deleteFrom t d = inr d' → t' ≠ t → store_rows t' d' = store_rows t' d.
Proof.
  unfold store_deleteFrom, store_rows. destruct (Js.get d t); [|done].
  intros [= <-] Hne. by rewrite get_put_ne.
Defined.

Lemma cleanDatabase_fails_at_first_rejection_witness :
  cleanDatabase store_deleteFrom ["user"; "order"; "user"] one_user
  = (Some "relation does not exist", [("user", [])]).
Proof.
  apply (proj2 (cleanDatabase_fails_at_first_rejection store_deleteFrom
                  ["user"; "order"; "user"] one_user [("user", [])]
                  "relation does not exist")).
  exists ["user"], "order", ["user"]. split_and!; reflexivity.
Defined.

Lemma cleanDatabase_empties_listed_witness :
  (∀ t d d', store_deleteFrom t d = inr d' → store_rows t d' = []) ∧
  (∀ t t' d d', store_deleteFrom t d = inr d' → t' ≠ t →
                store_rows t' d' = store_rows t' d) ∧
  cleanDatabase store_deleteFrom ["user"] one_user = (None, [("user", [])]) ∧
  (∀ t, t ∈ ["user"] → store_rows t [("user", [])] = []) ∧
  (∀ t, t ∉ ["user"] → store_rows t [("user", [])] = store_rows t one_user).
Proof.
  split; [exact store_delete_empties|]. split; [exact store_delete_frame|].
  split; [reflexivity|].
  exact (cleanDatabase_empties_listed store_deleteFrom store_rows ["user"] one_user
           [("user", [])] store_delete_empties store_delete_frame eq_refl).
Defined.

(** ** A cleaned database behind the route *)

(** X6. After a [cleanDatabase] that lists the [user] table went through, no
    request to the route is answered with a user, whatever id it asks for:
    given that deletes empty their table and leave the others alone, and
    that the query only finds rows that are in the table. *)
Theorem GET_user_after_cleanDatabase {Db Num DriverError : Type}
    (deleteFrom : string → Db → DriverError + Db)
    (rows : string → Db → list UserRow)
    (selectUser : Num → Db → DriverError + option UserRow)
    (parseInt : string → Num)
    (isPublicNonRecoverableError :
       ServiceError DriverError → option (PublicNonRecoverableError (list string)))
    (isInternalError_public : PublicNonRecoverableError (list string) → bool)
    (isInternalError_rejected : DriverError → option (InternalError (list string)))
    (driver_typeof : DriverError → string) (driver_is_null : DriverError → bool)
    (driver_message : DriverError → string)
    (JSON_stringify_details : list string → option string)
    (JSON_stringify : ServiceError DriverError → option (option string))
    (tables : list string) (db db' : Db) :
  (∀ t d d', deleteFrom t d = inr d' → rows t d' = []) →
  (∀ t t' d d', deleteFrom t d = inr d' → t' ≠ t → rows t' d' = rows t' d) →
  (∀ n d u, selectUser n d = inr (Some u) → u ∈ rows "user" d) →
  "user" ∈ tables →
  cleanDatabase deleteFrom tables db = (None, db') →
  ∀ userId h status body,
    GET_user selectUser parseInt isPublicNonRecoverableError isInternalError_public
      isInternalError_rejected driver_typeof driver_is_null driver_message
      JSON_stringify_details JSON_stringify userId db' h ≠ Served status body.
Proof.
  intros Hempty Hframe Hsound Hin Hclean userId h status body.
  destruct (cleanDatabase_rows deleteFrom rows tables db db' Hempty Hframe Hclean) as [Hnone _].
  unfold GET_user, UsersController_getUser, UsersService_getUser, UsersRepository_getUser.
  destruct (selectUser (parseInt userId) db') as [reason|[row|]] eqn:Hsel;
    [by destruct (handle _ _ _ _ _ _ _ _ _ _) | | by destruct (handle _ _ _ _ _ _ _ _ _ _)].
  apply Hsound in Hsel. rewrite (Hnone _ Hin) in Hsel. by apply elem_of_nil in Hsel.
Qed.

Lemma store_select_sound (n : option Z) (d : Js.Obj (list UserRow)) (u : UserRow) :
  store_selectUser n d = inr (Some u) → u ∈ store_rows "user" d.
Proof.
  unfold store_selectUser. destruct n as [n|]; [|done]. intros [= H].
  apply head_Some_elem_of in H. by apply list_elem_of_filter in H as [_ ?].
Defined.

Lemma GET_user_after_cleanDatabase_witness :
  (∀ t d d', store_deleteFrom t d = inr d' → store_rows t d' = []) ∧
  (∀ t t' d d', store_deleteFrom t d = inr d' → t' ≠ t →
                store_rows t' d' = store_rows t' d) ∧
  (∀ n d u, store_selectUser n d = inr (Some u) → u ∈ store_rows "user" d) ∧
  "user" ∈ ["user"] ∧
  cleanDatabase store_deleteFrom ["user"] one_user = (None, [("user", [])]) ∧
  ∀ userId h status body,
    store_GET_user userId [("user", [])] h ≠ Served status body.
Proof.
  split; [exact store_delete_empties|]. split; [exact store_delete_frame|].
  split; [exact store_select_sound|]. split; [apply list_elem_of_here|].
  split; [reflexivity|].
  exact (GET_user_after_cleanDatabase store_deleteFrom store_rows store_selectUser
           store_parseInt store_guard store_internal_public store_internal_rejected
           store_typeof store_is_null id store_stringify_details store_stringify
           ["user"] one_user [("user", [])]
           store_delete_empties store_delete_frame store_select_sound
           (list_elem_of_here _ _) eq_refl).
Defined.

(** ** Registering a literal *)

Lemma literal_spec props :
  ∀ s refs s1, literal props s = (refs, s1) →
    Js.keys refs = Js.keys props ∧
    objects s1 = objects s ++ props.*2 ∧
    registrations s1 = registrations s ∧ cache s1 = cache s ∧
    instances s1 = instances s ∧ calls s1 = calls s ∧ disposed s1 = disposed s ∧
    ∀ i k o, props !! i = Some (k, o) → refs !! i = Some (k, length (objects s) + i).
Proof.
  induction props as [|[k o] rest IH]; intros s refs s1; simpl.
  - intros [= <- <-]. rewrite app_nil_r. split_and!; try done.
  - destruct (literal rest (alloc o s).2) as [refs' s2] eqn:Hrest. simpl in Hrest.
    unfold alloc in Hrest |- *. simpl in *. rewrite Hrest. intros [= <- <-].
    destruct (IH _ _ _ Hrest) as (Hk & Ho & Hr & Hc & Hi & Hl & Hd & Hat). simpl in *.
    unfold Js.keys in *. simpl. rewrite Hk, Ho, <- app_assoc. split_and!; try done.
    intros [|i] k' o' Hi'; simpl in *.
    + injection Hi' as -> ->. do 2 f_equal. lia.
    + rewrite (Hat _ _ _ Hi'), length_app. simpl. do 2 f_equal. lia.
Qed.

Lemma literal_valid props s refs s1 :
  literal props s = (refs, s1) →
  ∀ k r, (k, r) ∈ refs → r < length (objects s1) ∧ ∃ o, (k, o) ∈ props ∧ deref s1 r = o.
Proof.
  intros Hlit k r Hin.
  destruct (literal_spec _ _ _ _ Hlit) as (Hk & Ho & _ & _ & _ & _ & _ & Hat).
  apply list_elem_of_lookup in Hin as [i Hi].
  assert (is_Some (props !! i)) as [[k' o] Hp].
  { apply lookup_lt_is_Some. apply lookup_lt_Some in Hi.
    unfold Js.keys in Hk. rewrite <- (length_fmap fst props), <- Hk, length_fmap. done. }
  rewrite (Hat _ _ _ Hp) in Hi. injection Hi as <- <-.
  pose proof (lookup_lt_Some _ _ _ Hp) as Hlt.
  split.
  - rewrite Ho, length_app, length_fmap. lia.
  - exists o. split; [by eapply list_elem_of_lookup_2|].
    unfold deref. rewrite Ho, lookup_app_r by lia.
    replace (length (objects s) + i - length (objects s)) with i by lia.
    by rewrite list_lookup_fmap, Hp.
Qed.

(** Registering the resolvers of an object literal: each is found under its
    key, other keys keep what they had, and nothing but the registrations
    and the new objects changes. *)
Lemma register_literal props s refs s1 :
  NoDup (Js.keys props) →
  literal props s = (refs, s1) →
  (∀ k o, (k, o) ∈ props → registration (registerDependencies refs s1) k = Some o) ∧
  (∀ k, k ∉ Js.keys props →
     Js.get (registrations (registerDependencies refs s1)) k = Js.get (registrations s) k) ∧
  (∀ k ref, Js.get (registrations s) k = Some ref → ref < length (objects s) →
     k ∉ Js.keys props →
     registration (registerDependencies refs s1) k = registration s k) ∧
  (∀ k, k ∈ Js.keys (registrations (registerDependencies refs s1)) ↔
        k ∈ Js.keys (registrations s) ∨ k ∈ Js.keys props) ∧
  (∃ extra, objects (registerDependencies refs s1) = objects s ++ extra) ∧
  cache (registerDependencies refs s1) = cache s ∧
  instances (registerDependencies refs s1) = instances s ∧
  calls (registerDependencies refs s1) = calls s ∧
  disposed (registerDependencies refs s1) = disposed s.
Proof.
  intros Hnd Hlit.
  destruct (literal_spec _ _ _ _ Hlit) as (Hk & Ho & Hr & Hc & Hi & Hl & Hd & Hat).
  assert (NoDup (Js.keys refs)) as Hnd' by (by rewrite Hk).
  assert (∀ k r, (k, r) ∈ refs → r < length (objects s1)) as Hvalid.
  { intros k r Hin. by destruct (literal_valid _ _ _ _ Hlit _ _ Hin). }
  pose proof (registerDependencies_objects refs s1 Hvalid) as Hobj.
  destruct (registerDependencies_rest refs s1) as (Hc' & Hi' & Hl' & Hd').
  split_and!.
  - intros k o Hin. apply list_elem_of_lookup in Hin as [i Hp].
    pose proof (Hat _ _ _ Hp) as Hrefs. apply list_elem_of_lookup_2 in Hrefs.
    rewrite (registerDependencies_registration _ _ _ _ Hnd' Hvalid Hrefs). f_equal.
    destruct (literal_valid _ _ _ _ Hlit _ _ Hrefs) as (_ & o' & Hin' & ->).
    apply (elem_get_Some _ _ _ Hnd) in Hin'.
    apply list_elem_of_lookup_2, (elem_get_Some _ _ _ Hnd) in Hp. congruence.
  - intros k Hk'. rewrite registerDependencies_other by (by rewrite Hk). by rewrite Hr.
  - intros k ref Hget Hlt Hk'. unfold registration.
    rewrite registerDependencies_other by (by rewrite Hk). rewrite Hr, Hget. simpl. f_equal.
    unfold deref. rewrite Hobj, Ho, <- app_assoc. by rewrite lookup_app_l.
  - intros k. rewrite registerDependencies_keys, Hr, Hk. done.
  - eexists. rewrite Hobj, Ho, <- app_assoc. done.
  - congruence.
  - congruence.
  - congruence.
  - congruence.
Qed.

Lemma registerDependencies_ref_valid resolvers s k r :
  NoDup (Js.keys resolvers) →
  (∀ k r, (k, r) ∈ resolvers → r < length (objects s)) →
  (k, r) ∈ resolvers →
  ∃ copy, Js.get (registrations (registerDependencies resolvers s)) k = Some copy ∧
          copy < length (objects (registerDependencies resolvers s)).
Proof.
  intros Hnd Hvalid Hin.
  destruct (registerDependencies_copy _ _ _ _ Hnd Hvalid Hin) as (copy & Hget & _ & Hcopy & _).
  exists copy. split; [done|]. by eapply lookup_lt_Some.
Qed.

Lemma registerDependencies_keeps resolvers s k :
  (∀ k r, (k, r) ∈ resolvers → r < length (objects s)) →
  k ∉ Js.keys resolvers →
  (∀ ref, Js.get (registrations s) k = Some ref → ref < length (objects s)) →
  registration (registerDependencies resolvers s) k = registration s k.
Proof.
  intros Hvalid Hk Href. unfold registration. rewrite registerDependencies_other by done.
  destruct (Js.get (registrations s) k) as [ref|] eqn:Hget; [|done]. simpl. f_equal.
  eapply deref_app_l; [by apply registerDependencies_objects | by apply Href].
Qed.

(** ** The users module and the assembled container *)

(** X7. [usersModulePlugin] registers the three resolvers of
    [resolveUserDependencies] under their names, whatever container it is
    given; every other name keeps the registration it had, and nothing is
    constructed, cached or disposed by registering. *)
Theorem usersModulePlugin_registers (UsersController UsersRepository : Constructor) (s : State) :
  (∀ name r, Js.get (resolveUserDependencies UsersController UsersRepository) name = Some r →
     registration (usersModulePlugin UsersController UsersRepository s) name = Some r) ∧
  (∀ name, Js.get (resolveUserDependencies UsersController UsersRepository) name = None →
     Js.get (registrations (usersModulePlugin UsersController UsersRepository s)) name
     = Js.get (registrations s) name) ∧
  cache (usersModulePlugin UsersController UsersRepository s) = cache s ∧
  instances (usersModulePlugin UsersController UsersRepository s) = instances s ∧
  calls (usersModulePlugin UsersController UsersRepository s) = calls s ∧
  disposed (usersModulePlugin UsersController UsersRepository s) = disposed s.
Proof.
  unfold usersModulePlugin.
  destruct (literal (resolveUserDependencies UsersController UsersRepository) s)
    as [refs s1] eqn:Hlit.
  assert (NoDup (Js.keys (resolveUserDependencies UsersController UsersRepository))) as Hnd.
  { apply (bool_decide_unpack
             (NoDup (Js.keys (resolveUserDependencies UsersController UsersRepository)))).
    vm_compute. exact I. }
  destruct (register_literal _ _ _ _ Hnd Hlit) as (Hin & Hout & _ & _ & _ & Hc & Hi & Hl & Hd).
  split_and!; [ | | done..].
  - intros name r Hget. apply Hin. by apply get_Some_elem.
  - intros name Hget. apply Hout. by apply get_None.
Qed.

Lemma application_names_NoDup (UsersController UsersRepository : Constructor) app :
  NoDup (Js.keys (resolveCoreDependencies app
                    ++ resolveUserDependencies UsersController UsersRepository)).
Proof.
  apply (bool_decide_unpack
           (NoDup (Js.keys (resolveCoreDependencies app
                              ++ resolveUserDependencies UsersController UsersRepository)))).
  vm_compute. exact I.
Qed.

Lemma assemble_registration (UsersController UsersRepository : Constructor) app s name :
  registration (assemble UsersController UsersRepository app s) name
  = Js.get (resolveCoreDependencies app
              ++ resolveUserDependencies UsersController UsersRepository) name.
Proof.
  pose proof (application_names_NoDup UsersController UsersRepository app) as Hnd.
  unfold Js.keys in Hnd. rewrite fmap_app in Hnd.
  apply NoDup_app in Hnd as (Hnd1 & Hdisj & Hnd2).
  unfold assemble, usersModulePlugin.
  destruct (literal (resolveCoreDependencies app) (Awilix.createContainer s))
    as [refs1 s1] eqn:Hlit1.
  destruct (literal (resolveUserDependencies UsersController UsersRepository)
              (registerDependencies refs1 s1)) as [refs2 s3] eqn:Hlit2.
  destruct (register_literal _ _ _ _ Hnd1 Hlit1) as (Hin1 & Hout1 & _).
  destruct (register_literal _ _ _ _ Hnd2 Hlit2) as (Hin2 & Hout2 & Hkeep2 & _).
  destruct (Js.get (resolveCoreDependencies app ++ _) name) as [r|] eqn:Hget.
  - apply get_Some_elem, elem_of_app in Hget as [Hcore|Husers]; [|by apply Hin2].
    assert (name ∉ Js.keys (resolveUserDependencies UsersController UsersRepository)) as Hn.
    { apply Hdisj. apply list_elem_of_fmap. by exists (name, r). }
    destruct (literal_spec _ _ _ _ Hlit1) as (Hk1 & _).
    assert (∃ ref, (name, ref) ∈ refs1) as [ref Href].
    { assert (name ∈ Js.keys refs1) as Hin.
      { rewrite Hk1. apply list_elem_of_fmap. by exists (name, r). }
      apply list_elem_of_fmap in Hin as ([k ref] & -> & Hin). by exists ref. }
    assert (NoDup (Js.keys refs1)) as Hndr by (by rewrite Hk1).
    destruct (registerDependencies_ref_valid refs1 s1 name ref Hndr) as (copy & Hcopy & Hlt);
      [|done|].
    { intros k r0 Hin. by destruct (literal_valid _ _ _ _ Hlit1 _ _ Hin). }
    rewrite (Hkeep2 name copy Hcopy Hlt Hn). by apply Hin1.
  - apply get_None in Hget. unfold Js.keys in Hget. rewrite fmap_app in Hget.
    apply not_elem_of_app in Hget as [Hn1 Hn2].
    unfold registration. by rewrite (Hout2 _ Hn2), (Hout1 _ Hn1).
Qed.

(** X8. Whatever was allocated, registered or cached before, the container
    that [startApp] assembles has under every name exactly the resolver that
    [resolveCoreDependencies] or [resolveUserDependencies] lists for it and
    nothing under any other name; its cache is empty, and assembling enters
    no producer. *)
Theorem assemble_registers_exactly (UsersController UsersRepository : Constructor)
    (app : FastifyInstance) (s : State) (name : string) :
  registration (assemble UsersController UsersRepository app s) name
  = Js.get (resolveCoreDependencies app
              ++ resolveUserDependencies UsersController UsersRepository) name ∧
  cache (assemble UsersController UsersRepository app s) = [] ∧
  calls (assemble UsersController UsersRepository app s) = calls s ∧
  instances (assemble UsersController UsersRepository app s) = instances s.
Proof.
  split; [apply assemble_registration|].
  unfold assemble, usersModulePlugin.
  destruct (literal (resolveCoreDependencies app) (Awilix.createContainer s))
    as [refs1 s1] eqn:Hlit1.
  destruct (literal (resolveUserDependencies UsersController UsersRepository)
              (registerDependencies refs1 s1)) as [refs2 s3] eqn:Hlit2.
  destruct (literal_spec _ _ _ _ Hlit1) as (_ & _ & _ & Hc1 & Hi1 & Hl1 & _).
  destruct (literal_spec _ _ _ _ Hlit2) as (_ & _ & _ & Hc2 & Hi2 & Hl2 & _).
  destruct (registerDependencies_rest refs1 s1) as (Hc1' & Hi1' & Hl1' & _).
  destruct (registerDependencies_rest refs2 s3) as (Hc2' & Hi2' & Hl2' & _).
  simpl in Hc1, Hi1, Hl1. split_and!; congruence.
Qed.

(** ** Order of registration *)

Lemma registerDependencies_valid_after (resolvers other : Js.Obj nat) s :
  (∀ k r, (k, r) ∈ other → r < length (objects s)) →
  (∀ k r, (k, r) ∈ resolvers → r < length (objects s)) →
  ∀ k r, (k, r) ∈ resolvers → r < length (objects (registerDependencies other s)).
Proof.
  intros Hother Hvalid k r Hin. rewrite (registerDependencies_objects _ _ Hother), length_app.
  specialize (Hvalid _ _ Hin). lia.
Qed.

Lemma registerDependencies_then (resolvers other : Js.Obj nat) s k r :
  NoDup (Js.keys resolvers) →
  (∀ k r, (k, r) ∈ resolvers → r < length (objects s)) →
  (∀ k r, (k, r) ∈ other → r < length (objects s)) →
  (k, r) ∈ resolvers →
  k ∉ Js.keys other →
  registration (registerDependencies other (registerDependencies resolvers s)) k
  = Some (deref s r) ∧
  registration (registerDependencies resolvers (registerDependencies other s)) k
  = Some (deref s r).
Proof.
  intros Hnd Hvalid Hother Hin Hk. split.
  - rewrite registerDependencies_keeps.
    + by apply registerDependencies_registration.
    + by apply registerDependencies_valid_after.
    + done.
    + intros ref Href.
      destruct (registerDependencies_ref_valid _ _ _ _ Hnd Hvalid Hin) as (copy & Hcopy & Hlt).
      congruence.
  - rewrite (registerDependencies_registration resolvers (registerDependencies other s) k r);
      [|done | by apply registerDependencies_valid_after | done].
    f_equal. eapply deref_app_l; [by apply registerDependencies_objects | by eapply Hvalid].
Qed.

(** X9. Two [registerDependencies] calls whose resolvers have no name in
    common can be made in either order: under every name the container ends
    up with a resolver of the same properties. *)
Theorem registerDependencies_order_irrelevant (a b : Js.Obj nat) (s : State) (k : string) :
  NoDup (Js.keys a) →
  NoDup (Js.keys b) →
  (∀ k, k ∈ Js.keys a → k ∉ Js.keys b) →
  (∀ k r, (k, r) ∈ a → r < length (objects s)) →
  (∀ k r, (k, r) ∈ b → r < length (objects s)) →
  (∀ k ref, Js.get (registrations s) k = Some ref → ref < length (objects s)) →
  registration (registerDependencies b (registerDependencies a s)) k
  = registration (registerDependencies a (registerDependencies b s)) k.
Proof.
  intros Hnda Hndb Hdisj Hva Hvb Hregs.
  destruct (decide (k ∈ Js.keys a)) as [Hka|Hka].
  - apply list_elem_of_fmap in Hka as ([k' r] & -> & Hin). simpl.
    assert (k' ∉ Js.keys b) as Hkb.
    { apply Hdisj. apply list_elem_of_fmap. by exists (k', r). }
    destruct (registerDependencies_then a b s k' r) as [-> ->]; done.
  - destruct (decide (k ∈ Js.keys b)) as [Hkb|Hkb].
    + apply list_elem_of_fmap in Hkb as ([k' r] & -> & Hin). simpl in *.
      destruct (registerDependencies_then b a s k' r) as [-> ->]; done.
    + assert (∀ x y, (∀ k r, (k, r) ∈ x → r < length (objects s)) →
                     (∀ k r, (k, r) ∈ y → r < length (objects s)) →
                     k ∉ Js.keys x → k ∉ Js.keys y →
                     registration (registerDependencies y (registerDependencies x s)) k
                     = registration s k) as Hboth.
      { intros x y Hvx Hvy Hkx Hky. rewrite registerDependencies_keeps.
        - by apply registerDependencies_keeps; [| |apply Hregs].
        - by apply registerDependencies_valid_after.
        - done.
        - intros ref Href. rewrite registerDependencies_other in Href by done.
          rewrite (registerDependencies_objects _ _ Hvx), length_app.
          specialize (Hregs _ _ Href). lia. }
      by rewrite (Hboth a b), (Hboth b a).
Qed.

Lemma two_modules_facts :
  NoDup (Js.keys two_modules.1.1) ∧
  NoDup (Js.keys two_modules.1.2) ∧
  (∀ k, k ∈ Js.keys two_modules.1.1 → k ∉ Js.keys two_modules.1.2) ∧
  (∀ k r, (k, r) ∈ two_modules.1.1 → r < length (objects two_modules.2)) ∧
  (∀ k r, (k, r) ∈ two_modules.1.2 → r < length (objects two_modules.2)) ∧
  (∀ k ref, Js.get (registrations two_modules.2) k = Some ref →
            ref < length (objects two_modules.2)).
Proof.
  split_and!.
  - apply (bool_decide_unpack (NoDup (Js.keys two_modules.1.1))). vm_compute. exact I.
  - apply (bool_decide_unpack (NoDup (Js.keys two_modules.1.2))). vm_compute. exact I.
  - intros k Hk. vm_compute in Hk. vm_compute.
    repeat (apply elem_of_cons in Hk as [->|Hk]);
      try (intros Hx; apply list_elem_of_singleton in Hx; discriminate).
    by apply elem_of_nil in Hk.
  - intros k r Hin. vm_compute in Hin. vm_compute.
    repeat (apply elem_of_cons in Hin as [[= -> ->]|Hin]); [lia..|].
    by apply elem_of_nil in Hin.
  - intros k r Hin. vm_compute in Hin. vm_compute.
    repeat (apply elem_of_cons in Hin as [[= -> ->]|Hin]); [lia..|].
    by apply elem_of_nil in Hin.
  - intros k ref Hget. vm_compute in Hget. discriminate.
Defined.

Lemma registerDependencies_order_irrelevant_witness :
  (NoDup (Js.keys two_modules.1.1) ∧
   NoDup (Js.keys two_modules.1.2) ∧
   (∀ k, k ∈ Js.keys two_modules.1.1 → k ∉ Js.keys two_modules.1.2) ∧
   (∀ k r, (k, r) ∈ two_modules.1.1 → r < length (objects two_modules.2)) ∧
   (∀ k r, (k, r) ∈ two_modules.1.2 → r < length (objects two_modules.2)) ∧
   (∀ k ref, Js.get (registrations two_modules.2) k = Some ref →
             ref < length (objects two_modules.2))) ∧
  registration (registerDependencies two_modules.1.2
                  (registerDependencies two_modules.1.1 two_modules.2)) "usersService"
  = registration (registerDependencies two_modules.1.1
                    (registerDependencies two_modules.1.2 two_modules.2)) "usersService".
Proof.
  split; [exact two_modules_facts|].
  destruct two_modules_facts as (H1 & H2 & H3 & H4 & H5 & H6).
  exact (registerDependencies_order_irrelevant two_modules.1.1 two_modules.1.2
           two_modules.2 "usersService" H1 H2 H3 H4 H5 H6).
Defined.

(** ** A registration made after a resolution *)

(** X10. Registering another caching resolver under a name whose instance is
    already cached does not replace the instance: the name keeps resolving to
    the cached instance, and the newly registered producer is not entered. *)
Theorem registration_after_resolution_is_shadowed (name : string) (ref : nat)
    (e : CacheEntry) (resolvers : Js.Obj nat) (s : State) (r : nat) :
  held name ref e s →
  NoDup (Js.keys resolvers) →
  (∀ k r, (k, r) ∈ resolvers → r < length (objects s)) →
  (name, r) ∈ resolvers →
  caches (deref s r) →
  registration (registerDependencies resolvers s) name = Some (deref s r) ∧
  Awilix.resolve name (registerDependencies resolvers s)
  = (Ok (entry_value e), registerDependencies resolvers s).
Proof.
  intros (Hreg & Hlt & Hc) Hnd Hvalid Hin Hcaches.
  split; [by apply registerDependencies_registration|].
  destruct (registerDependencies_copy _ _ _ _ Hnd Hvalid Hin) as (copy & Hget & _ & Hcopy & _).
  destruct (registerDependencies_rest resolvers s) as (Hcache & _).
  apply (held_resolve name copy e). unfold held. split_and!; [done | | by rewrite Hcache].
  unfold deref at 1. by rewrite Hcopy.
Qed.

Lemma registration_after_resolution_is_shadowed_witness :
  held "usersService" 13 {| entry_resolver := 13; entry_value := 3 |}
    stand_in_after_resolution.2 ∧
  NoDup (Js.keys stand_in_after_resolution.1) ∧
  (∀ k r, (k, r) ∈ stand_in_after_resolution.1 →
          r < length (objects stand_in_after_resolution.2)) ∧
  ("usersService", 14) ∈ stand_in_after_resolution.1 ∧
  caches (deref stand_in_after_resolution.2 14) ∧
  registration (registerDependencies stand_in_after_resolution.1 stand_in_after_resolution.2)
    "usersService"
  = Some (deref stand_in_after_resolution.2 14) ∧
  Awilix.resolve "usersService"
    (registerDependencies stand_in_after_resolution.1 stand_in_after_resolution.2)
  = (Ok 3, registerDependencies stand_in_after_resolution.1 stand_in_after_resolution.2).
Proof.
  assert (held "usersService" 13 {| entry_resolver := 13; entry_value := 3 |}
            stand_in_after_resolution.2) as Hheld.
  { split_and!; [by vm_compute | | by vm_compute]. vm_compute. discriminate. }
  assert (NoDup (Js.keys stand_in_after_resolution.1)) as Hnd.
  { apply (bool_decide_unpack (NoDup (Js.keys stand_in_after_resolution.1))).
    vm_compute. exact I. }
  assert (∀ k r, (k, r) ∈ stand_in_after_resolution.1 →
                 r < length (objects stand_in_after_resolution.2)) as Hvalid.
  { intros k r Hin. vm_compute in Hin. vm_compute.
    repeat (apply elem_of_cons in Hin as [[= -> ->]|Hin]); [lia..|].
    by apply elem_of_nil in Hin. }
  assert (("usersService", 14) ∈ stand_in_after_resolution.1) as Hin
    by (vm_compute; apply list_elem_of_here).
  assert (caches (deref stand_in_after_resolution.2 14)) as Hcaches
    by (vm_compute; discriminate).
  split; [exact Hheld|]. split; [exact Hnd|]. split; [exact Hvalid|].
  split; [exact Hin|]. split; [exact Hcaches|].
  exact (registration_after_resolution_is_shadowed "usersService" 13
           {| entry_resolver := 13; entry_value := 3 |}
           stand_in_after_resolution.1 stand_in_after_resolution.2 14
           Hheld Hnd Hvalid Hin Hcaches).
Defined.

(** ** Failed resolutions *)

Lemma get_app_absent {V} (o new : Js.Obj V) k :
  k ∉ Js.keys new → Js.get (o ++ new) k = Js.get o k.
Proof.
  intros Hn. destruct (Js.get o k) as [v|] eqn:E.
  - by apply get_app_Some.
  - by apply get_app_None.
Qed.

Lemma grows_cache_same st s s' k :
  grows st s s' → k ∈ st → Js.get (cache s') k = Js.get (cache s) k.
Proof.
  intros (_ & _ & _ & (new & -> & Hk) & _) Hin. apply get_app_absent. by apply Hk.
Qed.

(** X11. A resolution that fails leaves no cache entry behind for the name
    that was asked for, so nothing half-made is handed out later; what was
    cached before stays cached, instances that dependencies completed on the
    way stay cached too, and no registration changes. *)
Theorem failed_resolution_caches_nothing (name : string) (s s' : State) (e : Error) :
  Awilix.resolve name s = (Err e, s') →
  Js.get (cache s') name = Js.get (cache s) name ∧
  (∀ k entry, Js.get (cache s) k = Some entry → Js.get (cache s') k = Some entry) ∧
  registrations s' = registrations s ∧
  objects s' = objects s.
Proof.
  intros H. pose proof (resolve_grows _ _ _ _ H) as Hg.
  pose proof Hg as (Hobj & Hregs & _).
  split_and!; [|intros k entry; by eapply grows_cache_kept | done | done].
  pose proof (resolve_returns name s) as Hf. rewrite H in Hf.
  unfold Awilix.resolve_bound in Hf. simpl in Hf.
  destruct (Js.get (registrations s) name) as [ref|]; [|by injection Hf as <- <-].
  assert (∀ r1 s1, Awilix.run_producer
                     (Awilix.resolve_fuel (length (registrations s)) [name]) name ref s
                   = Some (r1, s1) → Js.get (cache s1) name = Js.get (cache s) name) as Hrun.
  { intros r1 s1 Hr.
    destruct (run_producer_grows [] _ _ _ _ _ _
                (resolve_fuel_grows _ ([] ++ [name])) Hr) as [[-> _]|Hg1]; [done|].
    apply (grows_cache_same _ _ _ name) in Hg1; [done|].
    apply list_elem_of_singleton. done. }
  destruct (default TRANSIENT (lifetime (deref s ref))).
  - by eapply Hrun.
  - destruct (Js.get (cache s) name); [done|].
    destruct (Awilix.run_producer _ name ref s) as [[[v|e1] s1]|] eqn:Hr; [done| |done].
    injection Hf as <- <-. by eapply Hrun.
  - destruct (Js.get (cache s) name); [done|].
    destruct (Awilix.run_producer _ name ref s) as [[[v|e1] s1]|] eqn:Hr; [done| |done].
    injection Hf as <- <-. by eapply Hrun.
Qed.

Lemma failed_resolution_caches_nothing_witness :
  Awilix.resolve "usersRepository" assembled_invalid
  = (Err (Thrown "config"), snd (Awilix.resolve "usersRepository" assembled_invalid)) ∧
  Js.get (cache (snd (Awilix.resolve "usersRepository" assembled_invalid))) "usersRepository"
  = Js.get (cache assembled_invalid) "usersRepository" ∧
  (∀ k entry, Js.get (cache assembled_invalid) k = Some entry →
     Js.get (cache (snd (Awilix.resolve "usersRepository" assembled_invalid))) k
     = Some entry) ∧
  registrations (snd (Awilix.resolve "usersRepository" assembled_invalid))
  = registrations assembled_invalid ∧
  objects (snd (Awilix.resolve "usersRepository" assembled_invalid))
  = objects assembled_invalid.
Proof.
  assert (Awilix.resolve "usersRepository" assembled_invalid
          = (Err (Thrown "config"), snd (Awilix.resolve "usersRepository" assembled_invalid)))
    as Hres by (by vm_compute).
  split; [exact Hres|].
  exact (failed_resolution_caches_nothing "usersRepository" assembled_invalid _
           (Thrown "config") Hres).
Defined.

(** ** Order of construction *)

Lemma resolve_each_all st rec names :
  (∀ n s r s', rec n s = Some (r, s') → grows st s s') →
  ∀ s vs s', Awilix.resolve_each rec names s = Some (Ok vs, s') →
  ∀ d, d ∈ names →
    ∃ sa v sb, rec d sa = Some (Ok v, sb) ∧ grows st s sa ∧ grows st sb s'.
Proof.
  intros Hrec. induction names as [|n ns IH]; simpl; intros s vs s' H d Hd.
  - by apply elem_of_nil in Hd.
  - destruct (rec n s) as [[[v|e] s1]|] eqn:E1; [|done..].
    destruct (Awilix.resolve_each rec ns s1) as [[[vs'|e] s2]|] eqn:E2; [|done..].
    injection H as <- <-. apply elem_of_cons in Hd as [->|Hd].
    + exists s, v, s1. split_and!; [done | apply grows_refl |].
      by eapply resolve_each_grows.
    + destruct (IH _ _ _ E2 _ Hd) as (sa & v' & sb & Hr & Hg1 & Hg2).
      exists sa, v', sb. split_and!; [done | | done].
      eapply grows_trans; [by eapply Hrec | done].
Qed.

Lemma resolve_fuel_caches fuel st d s v s' :
  Awilix.resolve_fuel fuel st d s = Some (Ok v, s') →
  ∃ dref, Js.get (registrations s) d = Some dref ∧
          (caches (deref s dref) → ∃ e, Js.get (cache s') d = Some e).
Proof.
  destruct fuel as [|fuel]; [done|]. simpl. case_bool_decide as Hstack; [done|].
  destruct (Js.get (registrations s) d) as [dref|]; [|done].
  intros H. exists dref. split; [done|]. unfold caches. intros Hc.
  destruct (default TRANSIENT (lifetime (deref s dref))); [done| |].
  - destruct (Js.get (cache s) d) as [e|] eqn:Hget; [injection H as <- <-; by exists e|].
    destruct (Awilix.run_producer _ d dref s) as [[[v1|e1] s1]|]; [|done..].
    injection H as <- <-. simpl. eexists. apply get_put_eq.
  - destruct (Js.get (cache s) d) as [e|] eqn:Hget; [injection H as <- <-; by exists e|].
    destruct (Awilix.run_producer _ d dref s) as [[[v1|e1] s1]|]; [|done..].
    injection H as <- <-. simpl. eexists. apply get_put_eq.
Qed.

(** X13. When a resolution constructs the instance of a caching name, the
    entry of that name is the last of the cache, and every name its producer
    read off the cradle is registered and, if its lifetime caches, has its
    entry before it: what an instance depends on is in the cache ahead of
    the instance. *)
Theorem dependencies_are_cached_first (name : string) (ref : nat) (p : Producer)
    (v : Value) (s s' : State) :
  Js.get (registrations s) name = Some ref →
  caches (deref s ref) →
  resolve (deref s ref) = Some p →
  Js.get (cache s) name = None →
  Awilix.resolve name s = (Ok v, s') →
  ∃ earlier,
    cache s' = earlier ++ [(name, {| entry_resolver := ref; entry_value := v |})] ∧
    ∀ d, d ∈ uses p →
      ∃ dref, Js.get (registrations s) d = Some dref ∧
              (caches (deref s dref) → d ∈ Js.keys earlier).
Proof.
  unfold caches. intros Hreg Hlt Hp Hmiss H.
  pose proof (resolve_returns name s) as Hf. rewrite H in Hf.
  unfold Awilix.resolve_bound in Hf. simpl in Hf. rewrite Hreg in Hf.
  assert (match Awilix.run_producer (Awilix.resolve_fuel (length (registrations s)) [name]) name ref s with
          | Some (Ok resolved, s1) =>
              Some (Ok resolved, set_cache (λ c, Js.put c name
                      {| entry_resolver := ref; entry_value := resolved |}) s1)
          | other => other
          end = Some (Ok v, s')) as Hrun.
  { destruct (default TRANSIENT (lifetime (deref s ref))); [done| |]; by rewrite Hmiss in Hf. }
  clear Hf.
  destruct (Awilix.run_producer _ name ref s) as [[[v1|e] s1]|] eqn:Hr; [|done..].
  injection Hrun as -> <-. simpl.
  pose proof Hr as Hr'. unfold Awilix.run_producer in Hr'. rewrite Hp in Hr'.
  destruct (Awilix.resolve_each _ (uses p) _) as [[[deps|e] s0]|] eqn:Heach; [|done..].
  injection Hr' as Hfin.
  pose proof (resolve_each_grows ([] ++ [name]) _ _ (resolve_fuel_grows _ _) _ _ _ Heach) as Hg0.
  pose proof (grows_finish ([] ++ [name]) _ _ _ _ _ _ Hfin) as Hg1.
  assert (Js.get (cache s1) name = None) as Hnone.
  { eapply grows_cache_missed; [exact Hg1 | apply list_elem_of_singleton; done |].
    eapply grows_cache_missed; [exact Hg0 | apply list_elem_of_singleton; done | done]. }
  exists (cache s1). split; [by apply put_absent|].
  intros d Hd.
  destruct (resolve_each_all ([] ++ [name]) _ _ (resolve_fuel_grows _ _) _ _ _ Heach d Hd)
    as (sa & vd & sb & Hres & Hga & Hgb).
  destruct (resolve_fuel_caches _ _ _ _ _ _ Hres) as (dref & Hdreg & Hdc).
  pose proof Hga as (_ & Hregs & _). simpl in Hregs.
  exists dref. split; [by rewrite <- Hregs|].
  intros Hcd. destruct Hdc as [ed Hed].
  { unfold caches. rewrite (grows_deref _ _ _ _ Hga). done. }
  apply get_is_Some. exists ed.
  eapply grows_cache_kept; [exact Hg1|]. by eapply grows_cache_kept.
Qed.

Lemma dependencies_are_cached_first_witness :
  Js.get (registrations assembled) "usersService" = Some 13 ∧
  caches (deref assembled 13) ∧
  resolve (deref assembled 13) = Some UsersService ∧
  Js.get (cache assembled) "usersService" = None ∧
  Awilix.resolve "usersService" assembled = (Ok 3, service_resolved) ∧
  ∃ earlier,
    cache service_resolved
    = earlier ++ [("usersService", {| entry_resolver := 13; entry_value := 3 |})] ∧
    ∀ d, d ∈ uses UsersService →
      ∃ dref, Js.get (registrations assembled) d = Some dref ∧
              (caches (deref assembled dref) → d ∈ Js.keys earlier).
Proof.
  assert (caches (deref assembled 13)) as Hc by (vm_compute; discriminate).
  assert (Awilix.resolve "usersService" assembled = (Ok 3, service_resolved)) as Hres
    by (by vm_compute).
  split; [by vm_compute|]. split; [exact Hc|]. split; [by vm_compute|].
  split; [by vm_compute|]. split; [exact Hres|].
  exact (dependencies_are_cached_first "usersService" 13 UsersService 3 assembled
           service_resolved eq_refl Hc eq_refl eq_refl Hres).
Defined.

(** ** Starting the application *)

(** X12. Started in a new process, [startApp] returns exactly when the
    environment passes the schema: it has then mounted the one controller,
    having constructed what the controller reaches and not [awilixManager].
    Otherwise it neither returns nor rejects: what [generateConfig] threw
    while the controllers were collected is left uncaught, and nothing is
    cached.  In either case a registered name resolves unless it reaches
    [config] in an environment that fails the schema. *)
Theorem startApp_needs_valid_environment (app : FastifyInstance) :
  (env_valid app = true →
     fst (startApp UsersController UsersRepository app initial)
     = Returned [("usersController", 5)] ∧
     Js.keys (cache (snd (startApp UsersController UsersRepository app initial)))
     = ["config"; "database"; "usersRepository"; "usersService"; "tsRestServer";
        "usersController"]) ∧
  (env_valid app = false →
     fst (startApp UsersController UsersRepository app initial)
     = Uncaught (Thrown "config") ∧
     cache (snd (startApp UsersController UsersRepository app initial)) = []) ∧
  ((∃ allControllers,
      fst (startApp UsersController UsersRepository app initial) = Returned allControllers) ↔
   env_valid app = true) ∧
  (∀ name,
     name ∈ Js.keys (registrations (assemble UsersController UsersRepository app initial)) →
     (∃ v, fst (Awilix.resolve name (assemble UsersController UsersRepository app initial))
           = Ok v) ↔
     env_valid app = true ∨ name = "tsRestServer" ∨ name = "awilixManager").
Proof.
  destruct app as [manager valid]. simpl. split_and!.
  - intros ->. by vm_compute.
  - intros ->. by vm_compute.
  - split.
    + intros [m Hm]. destruct valid; [done|]. by vm_compute in Hm.
    + intros ->. eexists. by vm_compute.
  - intros name Hin. destruct valid.
    + split; [intros _; by left|]. intros _. vm_compute in Hin.
      repeat (apply elem_of_cons in Hin as [->|Hin]);
        [vm_compute; by eexists..|by apply elem_of_nil in Hin].
    + vm_compute in Hin.
      repeat (apply elem_of_cons in Hin as [->|Hin]);
        [..|by apply elem_of_nil in Hin];
        (split;
         [ intros [v Hv]; vm_compute in Hv;
           first [ discriminate Hv | by right; left | by right; right ]
         | intros [H|[H|H]]; try discriminate H; vm_compute; by eexists ]).
Qed.

Lemma startApp_needs_valid_environment_witness :
  fst (startApp UsersController UsersRepository app_valid initial)
  = Returned [("usersController", 5)] ∧
  Js.keys (cache (snd (startApp UsersController UsersRepository app_valid initial)))
  = ["config"; "database"; "usersRepository"; "usersService"; "tsRestServer";
     "usersController"].
Proof.
  exact (proj1 (startApp_needs_valid_environment app_valid) eq_refl).
Defined.

(** ** Disposers and closing *)

Lemma resolve_fuel_cache_NoDup fuel :
  ∀ st n s r s', NoDup (Js.keys (cache s)) →
    Awilix.resolve_fuel fuel st n s = Some (r, s') → NoDup (Js.keys (cache s')).
Proof.
  induction fuel as [|fuel IH]; intros st n s r s' Hnd H; [done|].
  simpl in H. case_bool_decide as Hin; [by injection H as <- <-|].
  destruct (Js.get (registrations s) n) as [ref|]; [|by injection H as <- <-].
  assert (∀ r1 s1, Awilix.run_producer (Awilix.resolve_fuel fuel (st ++ [n])) n ref s
                   = Some (r1, s1) → NoDup (Js.keys (cache s1))) as Hrun.
  { intros r1 s1. unfold Awilix.run_producer.
    destruct (resolve (deref s ref)) as [p|]; [|by intros [= <- <-]].
    assert (NoDup (Js.keys (cache (set_calls (λ c, c ++ [n]) s)))) as Hnd0 by done.
    destruct (Awilix.resolve_each _ (uses p) _) as [[[deps|e] s2]|] eqn:E; [| |done].
    - destruct (resolve_each_keeps (λ s, NoDup (Js.keys (cache s))) (λ _, 0) _ _
                  (λ n0 s0 r0 s0' HP H0, conj (IH (st ++ [n]) n0 s0 r0 s0' HP H0) eq_refl)
                  _ _ _ Hnd0 E) as [Hnd2 _].
      unfold Awilix.finish. destruct (outcome p); by intros [= <- <-].
    - intros [= <- <-].
      by destruct (resolve_each_keeps (λ s, NoDup (Js.keys (cache s))) (λ _, 0) _ _
                  (λ n0 s0 r0 s0' HP H0, conj (IH (st ++ [n]) n0 s0 r0 s0' HP H0) eq_refl)
                  _ _ _ Hnd0 E). }
  destruct (default TRANSIENT (lifetime (deref s ref))).
  - by eapply Hrun.
  - destruct (Js.get (cache s) n); [by injection H as <- <-|].
    destruct (Awilix.run_producer _ n ref s) as [[[v1|e1] s1]|] eqn:Hr; [| |done];
      injection H as <- <-; [|by eapply Hrun].
    simpl. apply NoDup_keys_put. by eapply Hrun.
  - destruct (Js.get (cache s) n); [by injection H as <- <-|].
    destruct (Awilix.run_producer _ n ref s) as [[[v1|e1] s1]|] eqn:Hr; [| |done];
      injection H as <- <-; [|by eapply Hrun].
    simpl. apply NoDup_keys_put. by eapply Hrun.
Qed.

Lemma resolve_cache_NoDup n s r s' :
  NoDup (Js.keys (cache s)) → Awilix.resolve n s = (r, s') → NoDup (Js.keys (cache s')).
Proof.
  intros Hnd H. eapply (resolve_fuel_cache_NoDup _ [] n s r s' Hnd).
  rewrite resolve_returns. by rewrite H.
Qed.

Lemma resolve_into_cache_NoDup names :
  ∀ acc s r s', NoDup (Js.keys (cache s)) →
    Awilix.resolve_into names acc s = (r, s') → NoDup (Js.keys (cache s')).
Proof.
  induction names as [|n ns IH]; simpl; intros acc s r s' Hnd H.
  - by injection H as <- <-.
  - destruct (Awilix.resolve n s) as [[v|e] s1] eqn:E.
    + eapply IH; [|exact H]. by eapply resolve_cache_NoDup.
    + injection H as <- <-. by eapply resolve_cache_NoDup.
Qed.

Lemma uses_cache_NoDup later :
  ∀ s, NoDup (Js.keys (cache s)) → NoDup (Js.keys (cache (foldl use s later))).
Proof.
  induction later as [|u later IH]; simpl; intros s Hnd; [done|]. apply IH.
  destruct u as [n|wanted]; simpl.
  - destruct (Awilix.resolve n s) as [r s'] eqn:E. by eapply resolve_cache_NoDup.
  - unfold Awilix.getWithTags.
    destruct (Awilix.resolve_into _ [] s) as [r s'] eqn:E. by eapply resolve_into_cache_NoDup.
Qed.

(** X14. For a class or function that declares no disposer of its own under
    [RESOLVER] and does not declare itself TRANSIENT there: a disposer handed
    to [asSingletonClass], [asControllerClass] or [asSingletonFunction] in
    [opts] stays on the resolver, and once the name registered with that
    resolver has been constructed, closing the application calls the
    disposer with the constructed instance. *)
Theorem disposer_in_options_runs_on_close (T : Constructor) (opts : BuildResolverOptions)
    (d : Disposer) (name : string) (ref : nat) (v : Value) (s s' : State) :
  opt_dispose opts = Some d →
  inline_dispose T = None →
  inline_lifetime T ≠ Some TRANSIENT →
  Js.get (registrations s) name = Some ref →
  deref s ref = asSingletonClass T (Some opts) ∨
  deref s ref = asControllerClass T (Some opts) ∨
  deref s ref = asSingletonFunction T (Some opts) →
  Js.get (cache s) name = None →
  Awilix.resolve name s = (Ok v, s') →
  dispose (deref s ref) = Some d ∧
  (name, v, d v) ∈ Awilix.dispose_calls s' ∧
  (name, v) ∈ disposed (snd (close s')).
Proof.
  intros Hd Hnone Hlife Hreg Hhelper Hmiss Hres.
  assert (dispose (deref s ref) = Some d ∧
          default TRANSIENT (lifetime (deref s ref)) ≠ TRANSIENT) as [Hdisp Hcaches].
  { unfold inline_dispose, inline_lifetime in *.
    destruct T as [p [[l t dd en]|]]; simpl in *;
      destruct Hhelper as [ -> | [ -> | -> ] ]; simpl; rewrite ?Hd, ?Hnone; simpl;
      (split; [done|]); try done; destruct l as [[]|]; done. }
  destruct (resolve_constructs _ _ _ _ _ Hreg Hcaches Hmiss Hres) as [Hentry _].
  pose proof (resolve_grows _ _ _ _ Hres) as Hg.
  assert ((name, v, d v) ∈ Awilix.dispose_calls s') as Hcall.
  { apply (dispose_calls_complete s' name {| entry_resolver := ref; entry_value := v |} d).
    - by apply get_Some_elem.
    - simpl. by rewrite (grows_deref _ _ _ _ Hg). }
  split_and!; [done..|].
  unfold close, Awilix.dispose. simpl. apply elem_of_app. right.
  apply list_elem_of_fmap. by exists (name, v, d v).
Qed.

Lemma disposer_in_options_runs_on_close_witness :
  Js.get (registrations with_disposer) "database" = Some 15 ∧
  Js.get (cache with_disposer) "database" = None ∧
  Awilix.resolve "database" with_disposer
  = (Ok 1, snd (Awilix.resolve "database" with_disposer)) ∧
  dispose (deref with_disposer 15) = Some (λ _ : Value, false) ∧
  ("database", 1, false) ∈ Awilix.dispose_calls (snd (Awilix.resolve "database" with_disposer)) ∧
  ("database", 1) ∈ disposed (snd (close (snd (Awilix.resolve "database" with_disposer)))).
Proof.
  assert (Awilix.resolve "database" with_disposer
          = (Ok 1, snd (Awilix.resolve "database" with_disposer))) as Hres by (by vm_compute).
  split; [by vm_compute|]. split; [by vm_compute|]. split; [exact Hres|].
  assert (inline_lifetime (plain {| uses := ["config"]; outcome := Construct |})
          ≠ Some TRANSIENT) as Hlife by (intros H; discriminate H).
  exact (disposer_in_options_runs_on_close
           (plain {| uses := ["config"]; outcome := Construct |})
           {| opt_lifetime := None; opt_tags := None;
              opt_dispose := Some (λ _ : Value, false); opt_enabled := None |}
           (λ _ : Value, false) "database" 15 1 with_disposer _
           eq_refl eq_refl Hlife eq_refl (or_intror (or_intror eq_refl)) eq_refl Hres).
Defined.

(** X15. However the container was used, one closing calls at most one
    disposer per name, and closing again right after calls none: what was
    disposed is not disposed a second time. *)
Theorem closing_disposes_once (s : State) (later : list Use) :
  NoDup (Js.keys (cache s)) →
  NoDup (Awilix.dispose_calls (foldl use s later)).*1.*1 ∧
  Awilix.dispose_calls (snd (close (foldl use s later))) = [] ∧
  disposed (snd (close (snd (close (foldl use s later)))))
  = disposed (snd (close (foldl use s later))).
Proof.
  intros Hnd. split_and!.
  - eapply sublist_NoDup; [by apply uses_cache_NoDup | apply dispose_calls_sublist].
  - done.
  - unfold close, Awilix.dispose. simpl. unfold Awilix.dispose_calls at 1. simpl.
    by rewrite app_nil_r.
Qed.

Lemma closing_disposes_once_witness :
  NoDup (Js.keys (cache (Y_resolved false))) ∧
  NoDup (Awilix.dispose_calls (foldl use (Y_resolved false) [Resolve "X"])).*1.*1 ∧
  Awilix.dispose_calls (snd (close (foldl use (Y_resolved false) [Resolve "X"]))) = [] ∧
  disposed (snd (close (snd (close (foldl use (Y_resolved false) [Resolve "X"])))))
  = disposed (snd (close (foldl use (Y_resolved false) [Resolve "X"]))).
Proof.
  assert (NoDup (Js.keys (cache (Y_resolved false)))) as Hnd.
  { apply (bool_decide_unpack (NoDup (Js.keys (cache (Y_resolved false))))).
    vm_compute. exact I. }
  split; [exact Hnd|].
  exact (closing_disposes_once (Y_resolved false) [Resolve "X"] Hnd).
Defined.

(** ** What gets mounted *)

Lemma assemble_NoDup (UsersController UsersRepository : Constructor) app s :
  NoDup (Js.keys (registrations (assemble UsersController UsersRepository app s))).
Proof.
  unfold assemble, usersModulePlugin.
  destruct (literal (resolveCoreDependencies app) (Awilix.createContainer s))
    as [refs1 s1] eqn:Hlit1.
  destruct (literal (resolveUserDependencies UsersController UsersRepository)
              (registerDependencies refs1 s1)) as [refs2 s3] eqn:Hlit2.
  apply registerDependencies_NoDup.
  destruct (literal_spec _ _ _ _ Hlit2) as (_ & _ & -> & _).
  apply registerDependencies_NoDup.
  destruct (literal_spec _ _ _ _ Hlit1) as (_ & _ & -> & _).
  simpl. apply NoDup_nil_2.
Qed.

(** X16. Whatever the bodies of the two imported classes are and whatever
    the memory held before, when [startApp] returns, the controllers it
    collected to mount are the one registered as [usersController] and no
    other: no service, repository or core dependency is taken for a
    controller. *)
Theorem startApp_mounts_only_the_controller (UsersController UsersRepository : Producer)
    (app : FastifyInstance) (s s' : State) (allControllers : Js.Obj Value) :
  startApp UsersController UsersRepository app s = (Returned allControllers, s') →
  ∀ name, name ∈ Js.keys allControllers ↔ name = "usersController".
Proof.
  unfold startApp. intros H name.
  destruct (Awilix.getWithTags _ _) as [[m|e] s0] eqn:Hget; [|done].
  injection H as <- <-.
  rewrite (getWithTags_keys _ _ _ _ (assemble_NoDup _ _ _ _) Hget).
  split.
  - intros (r & Hreg & (ts & Hts & Hin) & Hen). rewrite assemble_registration in Hreg.
    apply get_Some_elem in Hreg.
    unfold resolveCoreDependencies, resolveUserDependencies in Hreg.
    cbn [Datatypes.app] in Hreg.
    repeat (apply elem_of_cons in Hreg as [[= -> ->]|Hreg]); try done;
      try (simpl in Hts; discriminate Hts).
    by apply elem_of_nil in Hreg.
  - intros ->. eexists. rewrite assemble_registration. split; [reflexivity|].
    split; [|done]. exists [CONTROLLER_TAG]. split; [reflexivity | apply list_elem_of_here].
Qed.

Lemma startApp_mounts_only_the_controller_witness :
  startApp UsersController UsersRepository app_valid initial
  = (Returned [("usersController", 5)],
     snd (startApp UsersController UsersRepository app_valid initial)) ∧
  ∀ name, name ∈ Js.keys [("usersController", 5)] ↔ name = "usersController".
Proof.
  assert (startApp UsersController UsersRepository app_valid initial
          = (Returned [("usersController", 5)],
             snd (startApp UsersController UsersRepository app_valid initial))) as H
    by (by vm_compute).
  split; [exact H|].
  exact (startApp_mounts_only_the_controller UsersController UsersRepository app_valid
           initial _ [("usersController", 5)] H).
Defined.

(** X17. Registering the same resolvers a second time changes nothing that
    can be observed: under every name the container has a resolver of the
    same properties as after the first time, and the cache is untouched. *)
Theorem registerDependencies_twice (resolvers : Js.Obj nat) (s : State) (k : string) :
  NoDup (Js.keys resolvers) →
  (∀ k r, (k, r) ∈ resolvers → r < length (objects s)) →
  (∀ k ref, Js.get (registrations s) k = Some ref → ref < length (objects s)) →
  registration (registerDependencies resolvers (registerDependencies resolvers s)) k
  = registration (registerDependencies resolvers s) k ∧
  cache (registerDependencies resolvers (registerDependencies resolvers s)) = cache s.
Proof.
  intros Hnd Hvalid Hregs.
  assert (∀ k r, (k, r) ∈ resolvers → r < length (objects (registerDependencies resolvers s)))
    as Hvalid' by (by apply registerDependencies_valid_after).
  split.
  - destruct (decide (k ∈ Js.keys resolvers)) as [Hk|Hk].
    + apply list_elem_of_fmap in Hk as ([k' r] & -> & Hin). simpl.
      rewrite (registerDependencies_registration resolvers (registerDependencies resolvers s) k' r)
        by done.
      rewrite (registerDependencies_registration resolvers s k' r) by done. f_equal.
      eapply deref_app_l; [by apply registerDependencies_objects | by eapply Hvalid].
    + apply registerDependencies_keeps; [done..|].
      intros ref Href. rewrite registerDependencies_other in Href by done.
      rewrite (registerDependencies_objects _ _ Hvalid), length_app.
      specialize (Hregs _ _ Href). lia.
  - destruct (registerDependencies_rest resolvers (registerDependencies resolvers s)) as (-> & _).
    by destruct (registerDependencies_rest resolvers s) as (-> & _).
Qed.

Lemma registerDependencies_twice_witness :
  NoDup (Js.keys users_literal.1) ∧
  (∀ k r, (k, r) ∈ users_literal.1 → r < length (objects users_literal.2)) ∧
  (∀ k ref, Js.get (registrations users_literal.2) k = Some ref →
            ref < length (objects users_literal.2)) ∧
  registration (registerDependencies users_literal.1
                  (registerDependencies users_literal.1 users_literal.2)) "usersService"
  = registration (registerDependencies users_literal.1 users_literal.2) "usersService" ∧
  cache (registerDependencies users_literal.1
           (registerDependencies users_literal.1 users_literal.2))
  = cache users_literal.2.
Proof.
  assert (NoDup (Js.keys users_literal.1)) as Hnd.
  { apply (bool_decide_unpack (NoDup (Js.keys users_literal.1))). vm_compute. exact I. }
  assert (∀ k r, (k, r) ∈ users_literal.1 → r < length (objects users_literal.2)) as Hvalid.
  { intros k r Hin. vm_compute in Hin. vm_compute.
    repeat (apply elem_of_cons in Hin as [[= -> ->]|Hin]); [lia..|].
    by apply elem_of_nil in Hin. }
  assert (∀ k ref, Js.get (registrations users_literal.2) k = Some ref →
                   ref < length (objects users_literal.2)) as Hregs.
  { intros k ref Hget. vm_compute in Hget. discriminate. }
  split; [exact Hnd|]. split; [exact Hvalid|]. split; [exact Hregs|].
  exact (registerDependencies_twice users_literal.1 users_literal.2 "usersService"
           Hnd Hvalid Hregs).
Defined.
